(** * Instrumental-variable estimators: [linearmodels/iv/model.py]

    A shallow embedding of the estimation engine of [linearmodels.iv.model]
    (k-class / 2SLS / LIML, two-step and iterated GMM, CUE-GMM construction)
    together with the properties of its specification.

    Conventions of the embedding.
    - A numpy [float64] array of shape [(n, k)] is a matrix ['M[F]_(n, k)]
      over a real field [F]; arithmetic is exact.  The two places where the
      code can leave the field are written out: a singular matrix given to
      [numpy.linalg.inv] raises [LinAlgError], and a float division by zero
      yields a non-number ([None] below).
    - Functions of libraries outside the repository ([numpy.linalg.pinv],
      [numpy.sqrt], [numpy.linalg.eigvalsh]) and of modules of the package
      that are not part of the code under study ([inv_sqrth], [has_constant],
      the weight-matrix strategies) are parameters of the sections.
    - Python exceptions are values of [exn]; a computation that may raise
      returns a [result]. *)

From HB Require Import structures.
From Stdlib Require Import String.
From mathcomp Require Import boot order algebra.

Set Implicit Arguments.
Unset Strict Implicit.
Unset Printing Implicit Defensive.

Import GRing.Theory Num.Theory Order.POrderTheory Order.TotalTheory.
Local Open Scope ring_scope.

(** ** Exceptions *)

(** The [ValueError]s raised by the constructors, one per message. *)
Inductive value_error : Type :=
| WeightsNotPositive   (* "weights must be strictly positive." *)
| AllMissing           (* "All observations contain missing data. ..." *)
| NoRegressor          (* "Model must contain at least one regressor." *)
| TooFewInstruments    (* "The number of instruments (..) must be at least ..." *)
| RegressorsRank       (* "regressors [exog endog] do not have full column rank" *)
| InstrumentsRank      (* "instruments [exog instruments]  do not have full column rank" *)
| KappaNotScalar       (* "kappa must be None or a scalar" *)
| FullerNotScalar      (* "fuller must be None or a scalar" *)
| RowCount             (* an array that does not have [nobs] rows, in [IVData] *)
| StartingLength.      (* "starting does not have the correct number of values" *)

Inductive exn : Type :=
| ValueError of value_error
| LinAlgError          (* numpy.linalg.inv on a singular matrix *)
| ZeroDivisionError    (* Python scalar division by zero *)
| KeyError.            (* lookup of an unknown key in a registry *)

Inductive result (A : Type) : Type :=
| Ok of A
| Raise of exn.

Arguments Raise {A} e.

Definition bind {A B : Type} (c : result A) (k : A -> result B) : result B :=
  match c with
  | Ok a => k a
  | Raise e => Raise e
  end.

Notation "x <- c ;; k" := (bind c (fun x => k))
  (at level 100, c at next level, right associativity).

Definition is_ok {A : Type} (c : result A) : bool :=
  if c is Ok _ then true else false.

Definition is_value_error (e : exn) : bool :=
  if e is ValueError _ then true else false.

(** ** The numpy layer *)

Section Numpy.

Variable F : realFieldType.

(** [numpy.linalg.inv]: the inverse of a square matrix, [LinAlgError] on a
    singular one. *)
Definition inv n (A : 'M[F]_n) : result 'M[F]_n :=
  if A \in unitmx then Ok (invmx A) else Raise LinAlgError.

(** The four Penrose conditions: [P] is the Moore-Penrose pseudo-inverse
    of [A]. *)
Definition penrose m n (A : 'M[F]_(m, n)) (P : 'M[F]_(n, m)) : bool :=
  [&& A *m P *m A == A, P *m A *m P == P,
      (A *m P)^T == A *m P & (P *m A)^T == P *m A].

(** [array * scalar], [scalar * array] and [array / scalar]: numpy
    broadcasts the scalar. *)
Definition arr_mul_scalar m n (A : 'M[F]_(m, n)) (c : F) : 'M[F]_(m, n) :=
  \matrix_(i, j) (A i j * c).

Definition scalar_mul_arr m n (c : F) (A : 'M[F]_(m, n)) : 'M[F]_(m, n) :=
  \matrix_(i, j) (c * A i j).

Definition arr_div_scalar m n (A : 'M[F]_(m, n)) (c : F) : 'M[F]_(m, n) :=
  \matrix_(i, j) (A i j / c).

(** [A * w] for [A] of shape [(n, k)] and [w] of shape [(n, 1)]: numpy
    broadcasts [w] along the columns, row [i] is scaled by [w i]. *)
Definition bcast_mul n k (A : 'M[F]_(n, k)) (w : 'cV[F]_n) : 'M[F]_(n, k) :=
  \matrix_(i, j) (A i j * w i 0).

(** [A.mean(0)]: the column means, a one-dimensional array. *)
Definition mean0 n k (A : 'M[F]_(n, k)) : 'rV[F]_k :=
  \row_j ((\sum_i A i j) / n%:R).

(** [numpy.average(a, weights=w)] for two arrays of the same shape
    [(n, 1)]; numpy raises [ZeroDivisionError] when the weights sum to
    zero. *)
Definition average n (a w : 'cV[F]_n) : result F :=
  let scl := \sum_i w i 0 in
  if scl == 0 then Raise ZeroDivisionError
  else Ok ((\sum_i a i 0 * w i 0) / scl).

(** [numpy.matrix_rank]. *)
Definition matrix_rank m n (A : 'M[F]_(m, n)) : nat := \rank A.

(** Python's [min] on the array of eigenvalues. *)
Definition py_min (s : seq F) : F := foldr Num.min (head 0 s) s.

(** A float division whose divisor may be zero: numpy then yields [nan]
    or an infinity (with a warning, no exception), which is [None]. *)
Definition fdiv (a b : F) : option F :=
  if b == 0 then None else Some (a / b).

(** Python's true division of a scalar by an [int]. *)
Definition py_div (a : F) (b : int) : result F :=
  if b == 0 then Raise ZeroDivisionError else Ok (a / b%:~R).

(** The pseudo-inverse of a matrix of full column rank,
    [(A'A)^-1 A']. *)
Definition pinv_fcr m n (A : 'M[F]_(m, n)) : 'M[F]_(n, m) :=
  invmx (A^T *m A) *m A^T.

End Numpy.

(** ** Python dictionaries and the store of dictionary objects

    Keyword dictionaries (the [weight_config] of the GMM constructors) are
    mutable objects: a function with a double-star parameter owns a fresh
    dictionary, and a call that unpacks a dictionary [d] into keywords
    copies the items of [d] into the callee's own dictionary. *)

HB.instance Definition _ := hasDecEq.Build string String.eqb_spec.

Inductive pyval : Type :=
| PyBool of bool
| PyInt of int
| PyStr of string
| PyNone.

Definition dict : Type := seq (string * pyval).

Definition dict_keys (d : dict) : seq string := [seq kv.1 | kv <- d].

(** [key in d] *)
Definition dict_contains (key : string) (d : dict) : bool :=
  key \in dict_keys d.

(** [d.get(key)] *)
Definition dict_get (key : string) (d : dict) : option pyval :=
  if [seq kv <- d | kv.1 == key] is kv :: _ then Some kv.2 else None.

(** [d[key] = v]: the value of an existing key is replaced in place, a new
    key is appended. *)
Definition dict_setitem (key : string) (v : pyval) (d : dict) : dict :=
  if dict_contains key d
  then [seq (if kv.1 == key then (key, v) else kv) | kv <- d]
  else rcons d (key, v).

(** [registry[key]] on a module-level dictionary: [KeyError] on an unknown
    key. *)
Definition registry_get (V : Type) (key : string) (r : seq (string * V)) :
    result V :=
  if [seq kv <- r | kv.1 == key] is kv :: _ then Ok kv.2 else Raise KeyError.

(** The store: dictionary objects by location. *)
Definition loc : Type := nat.
Definition heap : Type := seq dict.

Definition load (l : loc) (h : heap) : dict := nth [::] h l.

Definition store (l : loc) (d : dict) (h : heap) : heap :=
  if (l < size h)%N then set_nth [::] h l d else h.

Definition alloc (d : dict) (h : heap) : loc * heap := (size h, rcons h d).

Arguments load : simpl never.
Arguments store : simpl never.

(** ** The data container *)

Section Data.

Variable F : realFieldType.

(** Modelled from the spec: the data container [IVData] of
    [linearmodels.iv.data], a "validated numeric matrix with ...
    missing-value tracking".  [ndarray] is its two-dimensional array and
    [isnull] flags the rows that hold a missing value ([nan]); the entries
    of a flagged row stand for no number. *)
Record IVData (n k : nat) : Type := mkIVData {
  ndarray : 'M[F]_(n, k);
  isnull : pred 'I_n
}.

(** Number of rows left once the rows of [missing] are dropped. *)
Definition nkept n (missing : pred 'I_n) : nat := #|[pred i | ~~ missing i]|.

(** Modelled from the spec: [IVData.drop(missing)], the rows are "dropped
    from every component in lock-step"; the rows kept stay in order. *)
Definition drop n k (missing : pred 'I_n) (d : IVData n k) :
    IVData (nkept missing) k :=
  mkIVData (\matrix_(i, j) ndarray d (enum_val i) j)
           (fun i => isnull d (enum_val i)).

(** Modelled from the spec: [IVData(x, nobs=nobs)], as the constructors call
    it.  "Every component has the same row count ([n]); row-count mismatch
    is an error": an array that does not have [nobs] rows is refused. *)
Definition with_nobs (nobs n k : nat) (d : IVData n k) :
    result (IVData nobs k) :=
  match @eqP _ n nobs with
  | ReflectT e => Ok (ecast m (IVData m k) e d)
  | ReflectF _ => Raise (ValueError RowCount)
  end.

(** [numpy.nanmean] of a weight column: the mean of the entries that are
    not [nan]. *)
Definition nanmean n (w : IVData n 1) : F :=
  (\sum_(i | ~~ isnull w i) ndarray w i 0) / #|[pred i | ~~ isnull w i]|%:R.

(** What [numpy.isscalar] tells apart in an argument. *)
Inductive py_scalar : Type :=
| Scalar of F
| NonScalar.

End Data.

Arguments NonScalar {F}.

(** ** [_IVModelBase]: validated data, weighting, residuals, diagnostics *)

Module _IVModelBase.
Section Def.

Variable F : realFieldType.
(** [numpy.sqrt] *)
Variable sqrt : F -> F.
(** The flag returned by [linearmodels.utility.has_constant]. *)
Variable has_constant : forall n k, 'M[F]_(n, k) -> bool.
(** The numbers of columns of [exog], [endog] and [instruments]; an
    argument that is [None] is an array with no column. *)
Variables k1 k2 k3 : nat.

(** The data arguments shared by all constructors, and the arguments of
    [_IVModelBase.__init__]. *)
Record Data (n : nat) : Type := mkData {
  a_dependent : IVData F n 1;
  a_exog : IVData F n k1;
  a_endog : IVData F n k2;
  a_instruments : IVData F n k3;
  a_weights : option (IVData F n 1)
}.

Record Args (n : nat) : Type := mkArgs {
  a_data : Data n;
  a_fuller : py_scalar F;
  a_kappa : option (py_scalar F)
}.

(** The state of a constructed model. *)
Record Model (nobs : nat) : Type := mkModel {
  dependent : IVData F nobs 1;
  exog : IVData F nobs k1;
  endog : IVData F nobs k2;
  instruments : IVData F nobs k3;
  weights : IVData F nobs 1;
  _y : 'cV[F]_nobs;
  _wy : 'cV[F]_nobs;
  _x : 'M[F]_(nobs, k1 + k2);
  _wx : 'M[F]_(nobs, k1 + k2);
  _z : 'M[F]_(nobs, k1 + k3);
  _wz : 'M[F]_(nobs, k1 + k3);
  _has_constant : bool;
  _kappa : option F;
  _fuller : F
}.

(** [weights = ones(self.dependent.shape)] when no weights are given. *)
Definition supplied_weights n (a : Data n) : IVData F n 1 :=
  if a_weights a is Some w then w else mkIVData (const_mx 1) pred0.

(** [any(weights <= 0)]; a comparison with [nan] is false. *)
Definition any_nonpositive n (w : IVData F n 1) : bool :=
  [exists i, ~~ isnull w i && (ndarray w i 0 <= 0)].

(** [weights / nanmean(weights)], wrapped again as [IVData]. *)
Definition normalized_weights n (a : Data n) : IVData F n 1 :=
  let w := supplied_weights a in
  mkIVData (arr_div_scalar (ndarray w) (nanmean w)) (isnull w).

(** [_drop_missing]: the rows with a missing value in any component. *)
Definition missing n (a : Data n) : pred 'I_n :=
  fun i => [|| isnull (a_dependent a) i, isnull (a_exog a) i,
               isnull (a_endog a) i, isnull (a_instruments a) i
             | isnull (normalized_weights a) i].

(** [any(missing)] and [npall(missing)]: [_drop_missing] raises. *)
Definition all_missing n (a : Data n) : bool :=
  [exists i, missing a i] && [forall i, missing a i].

(** The number of observations of the constructed model. *)
Definition nobs n (a : Data n) : nat := nkept (missing a).

(** [_validate_inputs]; returns the flag stored in [_has_constant]. *)
Definition _validate_inputs n (x : 'M[F]_(n, k1 + k2)) (z : 'M[F]_(n, k1 + k3)) :
    result bool :=
  if (k1 + k2 == 0)%N then Raise (ValueError NoRegressor)
  else if (k3 < k2)%N then Raise (ValueError TooFewInstruments)
  else if (matrix_rank x < k1 + k2)%N then Raise (ValueError RegressorsRank)
  else if (matrix_rank z < k1 + k3)%N then Raise (ValueError InstrumentsRank)
  else Ok (has_constant x).

(** The checks on [kappa] and [fuller] that close the constructor. *)
Definition check_kappa (kappa : option (py_scalar F)) : result (option F) :=
  match kappa with
  | None => Ok None
  | Some (Scalar k) => Ok (Some k)
  | Some NonScalar => Raise (ValueError KappaNotScalar)
  end.

Definition check_fuller (fuller : py_scalar F) : result F :=
  match fuller with
  | Scalar f => Ok f
  | NonScalar => Raise (ValueError FullerNotScalar)
  end.

(** [_IVModelBase.__init__] *)
Definition __init__ n (a : Args n) : result (Model (nobs (a_data a))) :=
  let d := a_data a in
  if any_nonpositive (supplied_weights d)
  then Raise (ValueError WeightsNotPositive)
  else if all_missing d then Raise (ValueError AllMissing)
  else
    let dependent := drop (missing d) (a_dependent d) in
    let exog := drop (missing d) (a_exog d) in
    let endog := drop (missing d) (a_endog d) in
    let instruments := drop (missing d) (a_instruments d) in
    let weights := drop (missing d) (normalized_weights d) in
    let w := map_mx sqrt (ndarray weights) in
    let y := ndarray dependent in
    let wy := bcast_mul y w in
    let x := row_mx (ndarray exog) (ndarray endog) in
    let wx := bcast_mul x w in
    let z := row_mx (ndarray exog) (ndarray instruments) in
    let wz := bcast_mul z w in
    hc <- _validate_inputs x z ;;
    kappa <- check_kappa (a_kappa a) ;;
    fuller <- check_fuller (a_fuller a) ;;
    Ok (mkModel dependent exog endog instruments weights
                y wy x wx z wz hc kappa fuller).

(** The call [_IVModelBase(dependent, exog, endog, instruments,
    weights=..., fuller=..., kappa=...)] on arrays whose row counts need
    not agree.  [nobs] is the row count of [dependent]; [exog], [endog]
    and [instruments] go through [IVData(x, nobs=nobs)] first, the weights
    after the test of their sign; what follows is [__init__] above.  An
    argument that is [None] is given as the array with no column and as
    many rows as [dependent].  The number of observations of the model is
    part of the result. *)
Definition construct n ne nn ni nw (dependent : IVData F n 1)
    (exog : IVData F ne k1) (endog : IVData F nn k2)
    (instruments : IVData F ni k3) (weights : option (IVData F nw 1))
    (fuller : py_scalar F) (kappa : option (py_scalar F)) :
    result {nobs : nat & Model nobs} :=
  exog <- with_nobs n exog ;;
  endog <- with_nobs n endog ;;
  instruments <- with_nobs n instruments ;;
  weights <- (if weights is Some w
              then if any_nonpositive w
                   then Raise (ValueError WeightsNotPositive)
                   else w <- with_nobs n w ;; Ok (Some w)
              else Ok None) ;;
  self <- __init__ (mkArgs (mkData dependent exog endog instruments weights)
                           fuller kappa) ;;
  Ok (existT _ _ self).

(** [wresids] and [resids].  A method returns its value together with the
    state of the object after the call. *)
Definition wresids nobs (self : Model nobs) (params : 'cV[F]_(k1 + k2)) :
    'cV[F]_nobs * Model nobs :=
  (_wy self - _wx self *m params, self).

Definition resids nobs (self : Model nobs) (params : 'cV[F]_(k1 + k2)) :
    'cV[F]_nobs * Model nobs :=
  (_y self - _x self *m params, self).

(** The entries of the dictionary built by [_post_estimation] that the
    model computes itself; the covariance, [s2] and the F-statistic come
    from the covariance strategy and [f_statistic]. *)
Record PostEstimation (nobs : nat) : Type := mkPostEstimation {
  params : 'cV[F]_(k1 + k2);
  eps : 'cV[F]_nobs;
  weps : 'cV[F]_nobs;
  residual_ss : F;
  total_ss : F;
  r2 : option F
}.

(** [_post_estimation] *)
Definition _post_estimation nobs (self : Model nobs)
    (params : 'cV[F]_(k1 + k2)) : result (PostEstimation nobs) :=
  let eps := (resids self params).1 in
  let weps := (wresids self params).1 in
  let residual_ss := weps^T *m weps in
  let w := ndarray (weights self) in
  let e := _wy self in
  e <- (if _has_constant self
        then avg <- average (_y self) w ;;
             Ok (e - arr_mul_scalar (map_mx sqrt w) avg)
        else Ok e) ;;
  let total_ss := (e^T *m e) 0 0 in
  let r2 := omap (fun q => 1 - q) (fdiv (residual_ss 0 0) total_ss) in
  Ok (mkPostEstimation params eps weps (residual_ss 0 0) total_ss r2).

End Def.
End _IVModelBase.

(** ** [_IVLSModelBase]: the k-class estimators *)

Inductive cov_class : Type :=
| HomoskedasticCovariance
| HeteroskedasticCovariance
| KernelCovariance
| ClusteredCovariance.

Definition COVARIANCE_ESTIMATORS : seq (string * cov_class) :=
  [:: ("homoskedastic"%string, HomoskedasticCovariance);
      ("unadjusted"%string, HomoskedasticCovariance);
      ("HomoskedasticCovariance"%string, HomoskedasticCovariance);
      ("homo"%string, HomoskedasticCovariance);
      ("robust"%string, HeteroskedasticCovariance);
      ("heteroskedastic"%string, HeteroskedasticCovariance);
      ("HeteroskedasticCovariance"%string, HeteroskedasticCovariance);
      ("hccm"%string, HeteroskedasticCovariance);
      ("kernel"%string, KernelCovariance);
      ("KernelCovariance"%string, KernelCovariance);
      ("one-way"%string, ClusteredCovariance);
      ("clustered"%string, ClusteredCovariance);
      ("OneWayClusteredCovariance"%string, ClusteredCovariance)].

Module _IVLSModelBase.
Section Def.

Import _IVModelBase.

Variable F : realFieldType.
Variable sqrt : F -> F.
(** [numpy.linalg.pinv] *)
Variable pinv : forall m n, 'M[F]_(m, n) -> 'M[F]_(n, m).
(** [linearmodels.utility.inv_sqrth] and [numpy.linalg.eigvalsh] *)
Variable inv_sqrth : forall n, 'M[F]_n -> 'M[F]_n.
Variable eigvalsh : forall n, 'M[F]_n -> seq F.
Variables k1 k2 k3 : nat.

(** [_IVLSModelBase.estimate_parameters], a static method. *)
Definition estimate_parameters n k m
    (x : 'M[F]_(n, k)) (y : 'cV[F]_n) (z : 'M[F]_(n, m)) (kappa : F) :
    result 'cV[F]_k :=
  let pinvz := pinv z in
  let p1 := arr_mul_scalar (x^T *m x) (1 - kappa)
            + scalar_mul_arr kappa ((x^T *m z) *m (pinvz *m x)) in
  let p2 := arr_mul_scalar (x^T *m y) (1 - kappa)
            + scalar_mul_arr kappa ((x^T *m z) *m (pinvz *m y)) in
  p1i <- inv p1 ;;
  Ok (p1i *m p2).

(** [_estimate_kappa].  [_regressor_is_exog] is true on the [k1] columns of
    [exog] and false on the [k2] columns of [endog]. *)
Definition _estimate_kappa nobs (self : Model F k1 k2 k3 nobs) : F :=
  let: (y, x, z) := (_wy self, _wx self, _wz self) in
  let e := row_mx y (rsubmx x) in
  let x1 := lsubmx x in
  let ez := e - z *m (pinv z *m e) in
  let ex1 := if (k1 == 0)%N then e else e - x1 *m (pinv x1 *m e) in
  let vpmzv_sqinv := inv_sqrth (ez^T *m ez) in
  let q := vpmzv_sqinv *m (ex1^T *m ex1) *m vpmzv_sqinv in
  py_min (eigvalsh q).

(** The entries [kappa] and [liml_kappa] of the results, with those of
    [_post_estimation]. *)
Record IVResults (nobs : nat) : Type := mkIVResults {
  kappa : F;
  liml_kappa : F;
  post : PostEstimation F k1 k2 nobs
}.

(** [_IVLSModelBase.fit].  The covariance strategy is looked up by name;
    what it computes is outside the model. *)
Definition fit nobs (self : Model F k1 k2 k3 nobs) (cov_type : string) :
    result (IVResults nobs) :=
  let: (wy, wx, wz) := (_wy self, _wx self, _wz self) in
  let liml_kappa := _estimate_kappa self in
  let kappa := _kappa self in
  let est_kappa := if kappa is Some k then k else liml_kappa in
  est_kappa <- (if _fuller self != 0
                then let: (nobs, ninstr) := (nobs, (k1 + k3)%N) in
                     q <- py_div (_fuller self) (nobs%:Z - ninstr%:Z) ;;
                     Ok (est_kappa - q)
                else Ok est_kappa) ;;
  params <- estimate_parameters wx wy wz est_kappa ;;
  cov_estimator <- registry_get cov_type COVARIANCE_ESTIMATORS ;;
  pe <- _post_estimation sqrt self params ;;
  Ok (mkIVResults est_kappa liml_kappa pe).

End Def.
End _IVLSModelBase.

(** ** [IV2SLS]: the k-class estimator with [kappa=1], [fuller=0] *)

Module IV2SLS.
Section Def.

Import _IVModelBase.

Variable F : realFieldType.
Variable sqrt : F -> F.
Variable has_constant : forall n k, 'M[F]_(n, k) -> bool.
Variables k1 k2 k3 : nat.

Definition __init__ n (d : Data F k1 k2 k3 n) :
    result (Model F k1 k2 k3 (nobs d)) :=
  _IVModelBase.__init__ sqrt has_constant (mkArgs d (Scalar 0) (Some (Scalar 1))).

End Def.
End IV2SLS.

(** ** [_IVGMMBase]: construction of the GMM estimators, J statistic *)

Inductive weight_class : Type :=
| HomoskedasticWeightMatrix
| HeteroskedasticWeightMatrix
| KernelWeightMatrix
| OneWayClusteredWeightMatrix.

Definition WEIGHT_MATRICES : seq (string * weight_class) :=
  [:: ("unadjusted"%string, HomoskedasticWeightMatrix);
      ("homoskedastic"%string, HomoskedasticWeightMatrix);
      ("robust"%string, HeteroskedasticWeightMatrix);
      ("heteroskedastic"%string, HeteroskedasticWeightMatrix);
      ("kernel"%string, KernelWeightMatrix);
      ("clustered"%string, OneWayClusteredWeightMatrix);
      ("one-way"%string, OneWayClusteredWeightMatrix)].

Module _IVGMMBase.
Section Def.

Import _IVModelBase.

Variable F : realFieldType.
Variable sqrt : F -> F.
Variable has_constant : forall n k, 'M[F]_(n, k) -> bool.
(** The weight-matrix strategies of [linearmodels.iv.gmm]: the objects,
    their constructors applied to the keywords of a call, and their
    [config] property. *)
Variable strategy : Type.
Variable new_strategy : weight_class -> dict -> result strategy.
Variable config : strategy -> dict.
Variables k1 k2 k3 : nat.

(** A GMM model: the state of [_IVModelBase] and the attributes the GMM
    constructors add; [_weight_config] refers to a dictionary object. *)
Record Model (nobs : nat) : Type := mkModel {
  base : _IVModelBase.Model F k1 k2 k3 nobs;
  _weight : strategy;
  _weight_type : string;
  _weight_config : loc
}.

(** [_IVGMMBase.__init__].  [kw] are the keywords the caller passes beyond
    the named ones; the function owns a fresh dictionary [weight_config]
    that holds them. *)
Definition __init__ n (d : Data F k1 k2 k3 n) (weight_type : string)
    (kw : dict) (h : heap) : result (Model (nobs d) * heap) :=
  let: (weight_config, h) := alloc kw h in
  self <- _IVModelBase.__init__ sqrt has_constant (mkArgs d (Scalar 0) None) ;;
  weight_matrix_estimator <- registry_get weight_type WEIGHT_MATRICES ;;
  w <- new_strategy weight_matrix_estimator (load weight_config h) ;;
  let: (cfg, h) := alloc (config w) h in
  Ok (mkModel self w weight_type cfg, h).

(** [WaldTestStatistic(stat, null, df)] *)
Record WaldTestStatistic : Type := mkWald {
  stat : F;
  df : int
}.

(** [_j_statistic] *)
Definition _j_statistic nobs (self : Model nobs)
    (params : 'cV[F]_(k1 + k2)) (weight_mat : 'M[F]_(k1 + k3)) :
    WaldTestStatistic :=
  let: (y, x, z) := (_wy (base self), _wx (base self), _wz (base self)) in
  let: (nobs, nvar, ninstr) := (nobs, (k1 + k2)%N, (k1 + k3)%N) in
  let eps := y - x *m params in
  let g_bar := mean0 (bcast_mul z eps) in
  let stat := (scalar_mul_arr nobs%:R g_bar *m weight_mat *m g_bar^T) 0 0 in
  mkWald stat (ninstr%:Z - nvar%:Z).

(** The GMM-specific entries of the results. *)
Record GMMPostEstimation : Type := mkGMMPost {
  weight_mat : 'M[F]_(k1 + k3);
  iterations : nat;
  j_stat : WaldTestStatistic
}.

(** [_gmm_post_estimation] *)
Definition _gmm_post_estimation nobs (self : Model nobs)
    (params : 'cV[F]_(k1 + k2)) (weight_mat : 'M[F]_(k1 + k3)) (iters : nat) :
    GMMPostEstimation :=
  mkGMMPost weight_mat iters (_j_statistic self params weight_mat).

End Def.
End _IVGMMBase.

(** ** [IVGMM]: two-step and iterated GMM *)

Module IVGMM.
Section Def.

Import _IVModelBase _IVGMMBase.

Variable F : realFieldType.
Variable sqrt : F -> F.
Variable has_constant : forall n k, 'M[F]_(n, k) -> bool.
Variable pinv : forall m n, 'M[F]_(m, n) -> 'M[F]_(n, m).
Variable inv_sqrth : forall n, 'M[F]_n -> 'M[F]_n.
Variable eigvalsh : forall n, 'M[F]_n -> seq F.
Variable strategy : Type.
Variable new_strategy : weight_class -> dict -> result strategy.
Variable config : strategy -> dict.
(** The [weight_matrix] method of a strategy. *)
Variable weight_matrix :
  strategy -> forall n k m, 'M[F]_(n, k) -> 'M[F]_(n, m) -> 'cV[F]_n -> 'M[F]_m.
Variables k1 k2 k3 : nat.

Notation Model := (_IVGMMBase.Model F strategy k1 k2 k3).

(** [IVGMM.__init__]: the constructor of the superclass runs with its own
    defaults, then the strategy is built from the arguments. *)
Definition __init__ n (d : Data F k1 k2 k3 n) (weight_type : string)
    (kw : dict) (h : heap) : result (Model (nobs d) * heap) :=
  let: (weight_config, h) := alloc kw h in
  r <- _IVGMMBase.__init__ sqrt has_constant new_strategy config d
         "robust"%string [::] h ;;
  let: (self, h) := r in
  weight_matrix_estimator <- registry_get weight_type WEIGHT_MATRICES ;;
  w <- new_strategy weight_matrix_estimator (load weight_config h) ;;
  let: (cfg, h) := alloc (config w) h in
  Ok (_IVGMMBase.mkModel (base self) w weight_type cfg, h).

(** [IVGMM.estimate_parameters], a static method. *)
Definition estimate_parameters n k m
    (x : 'M[F]_(n, k)) (y : 'cV[F]_n) (z : 'M[F]_(n, m)) (w : 'M[F]_m) :
    result 'cV[F]_k :=
  let xpz := x^T *m z in
  let zpy := z^T *m y in
  a <- inv (xpz *m w *m xpz^T) ;;
  Ok (a *m (xpz *m w *m zpy)).

(** The variables of the loop of [fit]: [iters], [norm], [params],
    [_params], [wmat] and [vinv]. *)
Record LoopState : Type := mkLoop {
  ls_iters : nat;
  ls_norm : F;
  ls_params : 'cV[F]_(k1 + k2);
  ls__params : 'cV[F]_(k1 + k2);
  ls_wmat : 'M[F]_(k1 + k3);
  ls_vinv : 'M[F]_(k1 + k2)
}.

(** [iters < iter_limit and norm > tol] *)
Definition loop_cond (iter_limit : int) (tol : F) (st : LoopState) : bool :=
  ((ls_iters st)%:Z < iter_limit) && (tol < ls_norm st).

(** One pass through the body of the loop. *)
Definition loop_body nobs (self : Model nobs) (st : LoopState) :
    result LoopState :=
  let: (wy, wx, wz) := (_wy (base self), _wx (base self), _wz (base self)) in
  let eps := wy - wx *m ls_params st in
  wmat <- inv (weight_matrix (_weight self) wx wz eps) ;;
  params <- estimate_parameters wx wy wz wmat ;;
  let delta := params - ls__params st in
  vinv <- (if ls_iters st == 1%N
           then let xpz := arr_div_scalar (wx^T *m wz) nobs%:R in
                let v := arr_div_scalar (xpz *m wmat *m xpz^T) nobs%:R in
                inv v
           else Ok (ls_vinv st)) ;;
  let _params := params in
  let norm := (delta^T *m vinv *m delta) 0 0 in
  Ok (mkLoop (ls_iters st).+1 norm params _params wmat vinv).

(** The [while] loop, with the number of passes bounded by [fuel]. *)
Fixpoint loop nobs (self : Model nobs) (iter_limit : int) (tol : F)
    (fuel : nat) (st : LoopState) : result LoopState :=
  match fuel with
  | 0%N => Ok st
  | fuel'.+1 =>
    if loop_cond iter_limit tol st
    then st' <- loop_body self st ;; loop self iter_limit tol fuel' st'
    else Ok st
  end.

(** The states the loop goes through: [passes self iter_limit tol st st']
    when [st'] is reached from [st] by passes of the body, each taken
    under the loop condition. *)
Inductive passes nobs (self : Model nobs) (iter_limit : int) (tol : F)
    (st : LoopState) : LoopState -> Prop :=
| passes_refl : passes self iter_limit tol st st
| passes_step st1 st2 :
    passes self iter_limit tol st st1 ->
    loop_cond iter_limit tol st1 ->
    loop_body self st1 = Ok st2 ->
    passes self iter_limit tol st st2.

(** The results of [IVGMM.fit]. *)
Record IVGMMResults (nobs : nat) : Type := mkIVGMMResults {
  post : PostEstimation F k1 k2 nobs;
  gmm_post : GMMPostEstimation F k1 k3
}.

(** The loop variables when the loop is entered:
    [iters, norm = 1, 10 * tol + 1], [vinv = eye(params.shape[0])]. *)
Definition loop_init (tol : F) (params : 'cV[F]_(k1 + k2))
    (wmat : 'M[F]_(k1 + k3)) : LoopState :=
  mkLoop 1 (10%:R * tol + 1) params params wmat 1%:M.

(** [IVGMM.fit].  The loop runs at most [iter_limit - 1] times, so that
    [iter_limit] passes are enough fuel for [loop]. *)
Definition fit nobs (self : Model nobs) (iter_limit : int) (tol : F)
    (initial_weight : option 'M[F]_(k1 + k3)) : result (IVGMMResults nobs) :=
  let: (wy, wx, wz) := (_wy (base self), _wx (base self), _wz (base self)) in
  wmat <- (if initial_weight is Some w then Ok w
           else inv (arr_div_scalar (wz^T *m wz) nobs%:R)) ;;
  sv <- IV2SLS.__init__ sqrt has_constant
          (mkData (dependent (base self)) (exog (base self))
                  (endog (base self)) (instruments (base self))
                  (Some (weights (base self)))) ;;
  r <- _IVLSModelBase.fit sqrt pinv inv_sqrth eigvalsh sv "robust"%string ;;
  let params := _IVModelBase.params (_IVLSModelBase.post r) in
  st <- loop self iter_limit tol `|iter_limit|%N (loop_init tol params wmat) ;;
  let: (params, wmat, iters) := (ls_params st, ls_wmat st, ls_iters st) in
  results <- _post_estimation sqrt (base self) params ;;
  let gmm_pe := _gmm_post_estimation self params wmat iters in
  Ok (mkIVGMMResults results gmm_pe).

End Def.
End IVGMM.

(** ** [IVGMMCUE]: construction of the continuously updating estimator *)

Module IVGMMCUE.
Section Def.

Import _IVModelBase _IVGMMBase.

Variable F : realFieldType.
Variable sqrt : F -> F.
Variable has_constant : forall n k, 'M[F]_(n, k) -> bool.
Variable strategy : Type.
Variable new_strategy : weight_class -> dict -> result strategy.
Variable config : strategy -> dict.
Variables k1 k2 k3 : nat.

Notation Model := (_IVGMMBase.Model F strategy k1 k2 k3).

(** [IVGMMCUE.__init__].  The superclass receives the items of
    [weight_config] as keywords; the assignment that follows writes into
    the dictionary of this function. *)
Definition __init__ n (d : Data F k1 k2 k3 n) (weight_type : string)
    (kw : dict) (h : heap) : result (Model (nobs d) * heap) :=
  let: (weight_config, h) := alloc kw h in
  r <- _IVGMMBase.__init__ sqrt has_constant new_strategy config d
         weight_type (load weight_config h) h ;;
  let: (self, h) := r in
  let h := if ~~ dict_contains "center"%string (load weight_config h)
           then store weight_config
                  (dict_setitem "center"%string (PyBool true)
                     (load weight_config h)) h
           else h in
  Ok (self, h).

End Def.
End IVGMMCUE.

(** ** The formulas of the specification

    Written from the specification's words, to be compared with the code. *)

Section SpecFormulas.

Variable F : realFieldType.

(** [P1 = x'x (1 - kappa) + kappa (x'z)(pinv_z x)] and
    [P2 = x'y (1 - kappa) + kappa (x'z)(pinv_z y)] for a given
    pseudo-inverse [pinv_z] of [z]. *)
Definition spec_P1 n k m (x : 'M[F]_(n, k)) (z : 'M[F]_(n, m))
    (pinv_z : 'M[F]_(m, n)) (kappa : F) : 'M[F]_k :=
  (1 - kappa) *: (x^T *m x) + kappa *: ((x^T *m z) *m (pinv_z *m x)).

Definition spec_P2 n k m (x : 'M[F]_(n, k)) (y : 'cV[F]_n) (z : 'M[F]_(n, m))
    (pinv_z : 'M[F]_(m, n)) (kappa : F) : 'cV[F]_k :=
  (1 - kappa) *: (x^T *m y) + kappa *: ((x^T *m z) *m (pinv_z *m y)).

(** [params = inverse(P1) P2] *)
Definition spec_kclass n k m (x : 'M[F]_(n, k)) (y : 'cV[F]_n)
    (z : 'M[F]_(n, m)) (pinv_z : 'M[F]_(m, n)) (kappa : F) : result 'cV[F]_k :=
  p1i <- inv (spec_P1 x z pinv_z kappa) ;;
  Ok (p1i *m spec_P2 x y z pinv_z kappa).

(** The 2SLS estimator [(X'Z (Z'Z)^-1 Z'X)^-1 X'Z (Z'Z)^-1 Z'Y]. *)
Definition spec_2sls n k m (x : 'M[F]_(n, k)) (y : 'cV[F]_n)
    (z : 'M[F]_(n, m)) : result 'cV[F]_k :=
  let zzi := invmx (z^T *m z) in
  a <- inv (x^T *m z *m zzi *m z^T *m x) ;;
  Ok (a *m (x^T *m z *m zzi *m z^T *m y)).

(** The OLS estimator [(x'x)^-1 x'y]. *)
Definition spec_ols n k (x : 'M[F]_(n, k)) (y : 'cV[F]_n) : result 'cV[F]_k :=
  a <- inv (x^T *m x) ;;
  Ok (a *m (x^T *m y)).

(** A positive definite weight matrix: [v W v' > 0] for every nonzero
    row vector [v]. *)
Definition posdef n (W : 'M[F]_n) : Prop :=
  forall v : 'rV[F]_n, v != 0 -> 0 < (v *m W *m v^T) 0 0.

End SpecFormulas.

(** ** The cases of the specification in which construction fails *)

Section ListedCases.

Import _IVModelBase.

Variable F : realFieldType.
Variables k1 k2 k3 : nat.

(** [x = [exog endog]] and [z = [exog instruments]] on the rows kept. *)
Definition kept_x n (d : Data F k1 k2 k3 n) : 'M[F]_(nobs d, k1 + k2) :=
  row_mx (ndarray (drop (missing d) (a_exog d)))
         (ndarray (drop (missing d) (a_endog d))).

Definition kept_z n (d : Data F k1 k2 k3 n) : 'M[F]_(nobs d, k1 + k3) :=
  row_mx (ndarray (drop (missing d) (a_exog d)))
         (ndarray (drop (missing d) (a_instruments d))).

(** The cases listed by the specification: no regressor, fewer instruments
    than endogenous regressors, [x] or [z] rank deficient, a weight that
    is not positive, all rows missing. *)
Definition listed_error n (d : Data F k1 k2 k3 n) : bool :=
  [|| (k1 + k2 == 0)%N, (k3 < k2)%N,
      (matrix_rank (kept_x d) < k1 + k2)%N,
      (matrix_rank (kept_z d) < k1 + k3)%N,
      any_nonpositive (supplied_weights d) | all_missing d].

(** Row counts mismatch across inputs: [exog], [endog], [instruments] or
    the weights, when given, do not have as many rows as [dependent]. *)
Definition rows_mismatch (n ne nn ni nw : nat) (weights_given : bool) : bool :=
  [|| ne != n, nn != n, ni != n | weights_given && (nw != n)].

(** The two further checks of the constructor. *)
Definition kappa_nonscalar (kappa : option (py_scalar F)) : bool :=
  if kappa is Some NonScalar then true else false.

Definition fuller_nonscalar (fuller : py_scalar F) : bool :=
  if fuller is NonScalar then true else false.

End ListedCases.

(** ** Example data

    Two observations, one exogenous regressor equal to the constant [1], a
    dependent variable [y], no endogenous regressor, no instrument, no
    weights given, no missing value. *)

Section Toy.

Import _IVModelBase.

Variable F : realFieldType.

(** Data of that shape: at least one row, no missing value, the exogenous
    regressor equal to [1] and the weights equal to [1]. *)
Definition simple n (d : Data F 1 0 0 n) : Prop :=
  [/\ (0 < n)%N, forall i, missing d i = false,
      ndarray (a_exog d) = const_mx 1
    & ndarray (supplied_weights d) = const_mx 1].

(** The data a constructed model holds, as [IVGMM.fit] passes them to
    [IV2SLS]. *)
Definition data_of k1 k2 k3 nobs (self : Model F k1 k2 k3 nobs) :
    Data F k1 k2 k3 nobs :=
  mkData (dependent self) (exog self) (endog self) (instruments self)
         (Some (weights self)).

Definition toy_column (c : F) : IVData F 2 1 := mkIVData (const_mx c) pred0.

Definition toy_nocolumn : IVData F 2 0 := mkIVData 0 pred0.

Definition toy_data (y : 'cV[F]_2) : Data F 1 0 0 2 :=
  mkData (mkIVData y pred0) (toy_column 1) toy_nocolumn toy_nocolumn None.

Definition toy_args (y : 'cV[F]_2) (fuller : py_scalar F)
    (kappa : option (py_scalar F)) : Args F 1 0 0 2 :=
  mkArgs (toy_data y) fuller kappa.

(** A weight-matrix strategy for the examples: its [weight_matrix] is
    [z'z / n] whatever the residuals are. *)
Definition toy_weight_matrix (s : unit) n k m (x : 'M[F]_(n, k))
    (z : 'M[F]_(n, m)) (eps : 'cV[F]_n) : 'M[F]_m :=
  n%:R^-1 *: (z^T *m z).

(** The dependent variable [[0, 1]]. *)
Definition toy_y01 : 'cV[F]_2 := \col_i (i : nat)%:R.

End Toy.

(** ** Instances for the examples, over the rationals *)

(** The square root on the weights of the examples, which are all [1]:
    exact on [0] and [1]. *)
Definition toy_sqrt (x : rat) : rat := x.

(** The example regressor is a constant. *)
Definition toy_has_constant n k (x : 'M[rat]_(n, k)) : bool := true.

(** Stand-ins for [inv_sqrth] and [eigvalsh] where their values play no
    role. *)
Definition toy_inv_sqrth n (A : 'M[rat]_n) : 'M[rat]_n := A.

Definition toy_eigvalsh n (A : 'M[rat]_n) : seq rat := [:: 1].

(** A strategy class that keeps the keywords it is built from. *)
Definition toy_new_strategy (c : weight_class) (kw : dict) : result dict :=
  Ok kw.

Definition toy_config (s : dict) : dict := s.

(** The regressor and instrument column [[1, 1]]. *)
Definition toy_x : 'cV[rat]_2 := const_mx 1.

(** A model with the regressor [[1, 2]], which is no constant, and the
    dependent variable equal to the regressor. *)
Definition toy_slope : 'cV[rat]_2 := \col_i (i.+1)%:R.

Definition toy_slope_model : _IVModelBase.Model rat 1 0 0 2 :=
  _IVModelBase.mkModel
    (mkIVData toy_slope pred0) (mkIVData toy_slope pred0)
    (toy_nocolumn rat) (toy_nocolumn rat) (toy_column 1)
    toy_slope toy_slope toy_slope toy_slope toy_slope toy_slope
    false None 0.

(** ** An overidentified example

    Data without missing values and with unit weights, and the three
    observations [y = [0, 1, 3]] with the constant regressor and one
    instrument [[0, 1, 0]]: two instrument columns for one regressor. *)

Section Complete.

Import _IVModelBase.

Variable F : realFieldType.
Variables k1 k2 k3 : nat.

(** No row is missing and the weights are all [1]. *)
Definition complete n (d : Data F k1 k2 k3 n) : Prop :=
  [/\ (0 < n)%N, forall i, missing d i = false
    & ndarray (supplied_weights d) = const_mx 1].

(** [x = [exog endog]] and [z = [exog instruments]] as supplied. *)
Definition full_x n (d : Data F k1 k2 k3 n) : 'M[F]_(n, k1 + k2) :=
  row_mx (ndarray (a_exog d)) (ndarray (a_endog d)).

Definition full_z n (d : Data F k1 k2 k3 n) : 'M[F]_(n, k1 + k3) :=
  row_mx (ndarray (a_exog d)) (ndarray (a_instruments d)).

(** The k-class closed form and the GMM closed form in terms of the
    cross products [x'x], [x'z], [z'z], [x'y] and [z'y]. *)
Definition kclass_gram k m (xx : 'M[F]_k) (xz : 'M[F]_(k, m)) (zz : 'M[F]_m)
    (xy : 'cV[F]_k) (zy : 'cV[F]_m) (kappa : F) : result 'cV[F]_k :=
  p1i <- inv ((1 - kappa) *: xx + kappa *: (xz *m invmx zz *m xz^T)) ;;
  Ok (p1i *m ((1 - kappa) *: xy + kappa *: (xz *m invmx zz *m zy))).

Definition gmm_gram k m (xz : 'M[F]_(k, m)) (zy : 'cV[F]_m) (w : 'M[F]_m) :
    result 'cV[F]_k :=
  a <- inv (xz *m w *m xz^T) ;;
  Ok (a *m (xz *m w *m zy)).

(** A matrix given by its rows. *)
Definition mx_of m n (rows : seq (seq F)) : 'M[F]_(m, n) :=
  \matrix_(i, j) nth 0 (nth [::] rows i) j.

End Complete.

Definition over_y : 'cV[rat]_3 := mx_of 3 1 [:: [:: 0]; [:: 1]; [:: 3%:R]].

Definition over_instrument : 'cV[rat]_3 := mx_of 3 1 [:: [:: 0]; [:: 1]; [:: 0]].

Definition over_data : _IVModelBase.Data rat 1 0 1 3 :=
  _IVModelBase.mkData (mkIVData over_y pred0) (mkIVData (const_mx 1) pred0)
    (mkIVData 0 pred0) (mkIVData over_instrument pred0) None.

(** The initial weight matrix [diag(1, 3)]. *)
Definition over_weight : 'M[rat]_(1 + 1) :=
  mx_of (1 + 1) (1 + 1) [:: [:: 1; 0]; [:: 0; 3%:R]].

(** ** A weighted example

    Two observations [y = [6, 11]] with the constant regressor and the
    weights [[1, 49]]: their mean is [25], the normalized weights are
    [[1/25, 49/25]] and the square roots of these [[1/5, 7/5]]. *)

(** A square root on the rationals that is exact on the squares of
    rationals: the integer root of the numerator over the integer root of
    the denominator. *)
Definition nat_sqrt (n : nat) : nat :=
  find (fun i => n < i.+1 * i.+1)%N (iota 0 n.+1).

Definition rat_sqrt (x : rat) : rat :=
  (nat_sqrt `|numq x|)%:R / (nat_sqrt `|denq x|)%:R.

Arguments rat_sqrt : simpl never.

Definition weighted_y : 'cV[rat]_2 := mx_of 2 1 [:: [:: 6%:R]; [:: 11%:R]].

Definition weighted_weights : 'cV[rat]_2 := mx_of 2 1 [:: [:: 1]; [:: 49%:R]].

Definition weighted_data : _IVModelBase.Data rat 1 0 0 2 :=
  _IVModelBase.mkData (mkIVData weighted_y pred0) (toy_column 1)
    (toy_nocolumn rat) (toy_nocolumn rat)
    (Some (mkIVData weighted_weights pred0)).

(** An exogenous regressor with three rows, for a dependent variable with
    two. *)
Definition three_rows : IVData rat 3 1 := mkIVData (const_mx 1) pred0.

(** ** An exactly identified example

    The three observations [y = [0, 1, 3]] with the endogenous regressor
    [[1, 2, 0]], no exogenous regressor and the instrument [[0, 1, 0]]. *)

Definition just_endog : 'cV[rat]_3 := mx_of 3 1 [:: [:: 1]; [:: 2%:R]; [:: 0]].

Definition just_data : _IVModelBase.Data rat 0 1 1 3 :=
  _IVModelBase.mkData (mkIVData over_y pred0) (mkIVData 0 pred0)
    (mkIVData just_endog pred0) (mkIVData over_instrument pred0) None.

(** * Properties *)

(** ** Facts on the numpy layer *)

Section NumpyFacts.

Variable F : realFieldType.

Lemma arr_mul_scalarE m n (A : 'M[F]_(m, n)) c : arr_mul_scalar A c = c *: A.
Proof. by apply/matrixP => i j; rewrite !mxE mulrC. Qed.

Lemma scalar_mul_arrE m n c (A : 'M[F]_(m, n)) : scalar_mul_arr c A = c *: A.
Proof. by apply/matrixP => i j; rewrite !mxE. Qed.

Lemma arr_div_scalarE m n (A : 'M[F]_(m, n)) c : arr_div_scalar A c = c^-1 *: A.
Proof. by apply/matrixP => i j; rewrite !mxE mulrC. Qed.

Lemma bindE A B (c : result A) (k : A -> result B) (b : B) :
  (x <- c ;; k x) = Ok b -> exists2 a, c = Ok a & k a = Ok b.
Proof. by case: c => [a|e] //= kab; exists a. Qed.

Lemma invE n (A : 'M[F]_n) (B : 'M[F]_n) :
  inv A = Ok B -> A \in unitmx /\ B = invmx A.
Proof. by rewrite /inv; case: ifP => // Au [<-]. Qed.

Lemma inv_unit n (A : 'M[F]_n) : A \in unitmx -> inv A = Ok (invmx A).
Proof. by rewrite /inv => ->. Qed.

Lemma penroseP m n (A : 'M[F]_(m, n)) (P : 'M[F]_(n, m)) :
  reflect [/\ A *m P *m A = A, P *m A *m P = P,
              (A *m P)^T = A *m P & (P *m A)^T = P *m A]
          (penrose A P).
Proof.
apply: (iffP and4P) => [[/eqP ? /eqP ? /eqP ? /eqP ?] | [? ? ? ?]]; first by split.
by split; apply/eqP.
Qed.

(** The Moore-Penrose pseudo-inverse is unique. *)
Lemma penrose_uniq m n (A : 'M[F]_(m, n)) (P Q : 'M[F]_(n, m)) :
  penrose A P -> penrose A Q -> P = Q.
Proof.
move=> /penroseP [P1 P2 P3 P4] /penroseP [Q1 Q2 Q3 Q4].
have e1 : A^T = A^T *m (A *m Q) by rewrite -{1}Q1 trmx_mul Q3.
have e2 : A^T = P *m A *m A^T by rewrite -{1}P1 -mulmxA trmx_mul P4.
have hP : P = P *m A *m Q.
  have {1}<- : P *m (P^T *m A^T) = P by rewrite -trmx_mul P3 mulmxA.
  rewrite e1 !mulmxA -[P *m P^T *m A^T]mulmxA -trmx_mul P3.
  by rewrite [P *m (A *m P)]mulmxA P2.
have hQ : Q = P *m A *m Q.
  have {1}<- : A^T *m Q^T *m Q = Q by rewrite -trmx_mul Q4.
  rewrite e2 -[P *m A *m A^T *m Q^T]mulmxA -trmx_mul Q4.
  by rewrite -!mulmxA [Q *m (A *m Q)]mulmxA Q2.
by rewrite {1}hP -hQ.
Qed.

(** On a matrix of full column rank the pseudo-inverse is
    [(A'A)^-1 A']. *)
Lemma penrose_pinv_fcr m n (A : 'M[F]_(m, n)) :
  A^T *m A \in unitmx -> penrose A (pinv_fcr A).
Proof.
move=> Au; have PA : pinv_fcr A *m A = 1%:M by rewrite /pinv_fcr -mulmxA mulVmx.
apply/penroseP; split.
- by rewrite -mulmxA PA mulmx1.
- by rewrite PA mul1mx.
- rewrite /pinv_fcr !trmx_mul trmxK trmx_inv trmx_mul trmxK.
  by rewrite mulmxA.
- by rewrite PA trmx1.
Qed.

Lemma pinv_full_rank m n (A : 'M[F]_(m, n)) (P : 'M[F]_(n, m)) :
  penrose A P -> A^T *m A \in unitmx -> P = pinv_fcr A.
Proof. by move=> AP Au; apply: penrose_uniq AP (penrose_pinv_fcr Au). Qed.

(** Only the first and third Penrose conditions are needed for this:
    [A' = A' A P]. *)
Lemma penrose_tr m n (A : 'M[F]_(m, n)) (P : 'M[F]_(n, m)) :
  penrose A P -> A^T *m A *m P = A^T.
Proof.
move=> /penroseP [P1 _ P3 _].
by rewrite -mulmxA -[A *m P]P3 -trmx_mul P1.
Qed.

End NumpyFacts.

(** ** The k-class closed form *)

Section KClassFacts.

Variable F : realFieldType.
Variable pinv : forall m n, 'M[F]_(m, n) -> 'M[F]_(n, m).

Local Notation estimate_parameters := (_IVLSModelBase.estimate_parameters pinv).

Lemma estimate_parametersE n k m (x : 'M[F]_(n, k)) (y : 'cV[F]_n)
    (z : 'M[F]_(n, m)) (kappa : F) :
  estimate_parameters x y z kappa = spec_kclass x y z (pinv z) kappa.
Proof.
rewrite /_IVLSModelBase.estimate_parameters /spec_kclass /spec_P1 /spec_P2.
by rewrite !arr_mul_scalarE !scalar_mul_arrE.
Qed.

(** C1. For every regressor matrix [x], regressand [y], instrument matrix
    [z] and scalar [kappa], the static [estimate_parameters] returns
    [inverse(P1) @ P2] with [P1 = x'x (1 - kappa) + kappa (x'z)(pinv(z) x)]
    and [P2 = x'y (1 - kappa) + kappa (x'z)(pinv(z) y)], where [pinv(z)]
    is the Moore-Penrose pseudo-inverse of [z]: whatever matrix [pz]
    satisfies the four Penrose conditions for [z] gives the value
    returned, [numpy.linalg.pinv] being such a pseudo-inverse at [z]. *)
Theorem estimate_parameters_closed_form n k m (x : 'M[F]_(n, k))
    (y : 'cV[F]_n) (z : 'M[F]_(n, m)) (kappa : F) (pz : 'M[F]_(m, n)) :
  penrose z (pinv z) -> penrose z pz ->
  estimate_parameters x y z kappa
  = (p1i <- inv (spec_P1 x z pz kappa) ;; Ok (p1i *m spec_P2 x y z pz kappa)).
Proof.
move=> Hn Hpz; rewrite estimate_parametersE /spec_kclass.
by rewrite (penrose_uniq Hn Hpz).
Qed.

Lemma estimate_parameters_kappa0 n k m (x : 'M[F]_(n, k)) (y : 'cV[F]_n)
    (z : 'M[F]_(n, m)) :
  estimate_parameters x y z 0 = spec_ols x y.
Proof.
rewrite estimate_parametersE /spec_kclass /spec_P1 /spec_P2 /spec_ols.
by rewrite subr0 !scale1r !scale0r !addr0.
Qed.

Lemma estimate_parameters_kappa1 n k m (x : 'M[F]_(n, k)) (y : 'cV[F]_n)
    (z : 'M[F]_(n, m)) :
  penrose z (pinv z) -> z^T *m z \in unitmx ->
  estimate_parameters x y z 1 = spec_2sls x y z.
Proof.
move=> Hp Hz; rewrite estimate_parametersE /spec_kclass /spec_P1 /spec_P2.
rewrite subrr !scale0r !add0r !scale1r (pinv_full_rank Hp Hz) /pinv_fcr.
by rewrite /spec_2sls !mulmxA.
Qed.

(** C2. For valid [x], [y], [z] ([z] of full column rank, [pinv] the
    pseudo-inverse at [z]) the closed form at [kappa = 1] is the 2SLS
    estimator [(X'Z (Z'Z)^-1 Z'X)^-1 X'Z (Z'Z)^-1 Z'Y], and at
    [kappa = 0] it is the OLS estimator [(x'x)^-1 x'y]; both sides raise
    on the same inputs. *)
Theorem kclass_special_cases n k m (x : 'M[F]_(n, k)) (y : 'cV[F]_n)
    (z : 'M[F]_(n, m)) :
  penrose z (pinv z) -> z^T *m z \in unitmx ->
  estimate_parameters x y z 1 = spec_2sls x y z
  /\ estimate_parameters x y z 0 = spec_ols x y.
Proof.
move=> Hp Hz; split; first exact: estimate_parameters_kappa1.
exact: estimate_parameters_kappa0.
Qed.

End KClassFacts.

(** ** The constructor of [_IVModelBase] *)

Section ModelFacts.

Import _IVModelBase.

Variable F : realFieldType.
Variable sqrt : F -> F.
Variable has_constant : forall n k, 'M[F]_(n, k) -> bool.
Variables k1 k2 k3 : nat.

Local Notation Data := (Data F k1 k2 k3).
Local Notation Args := (Args F k1 k2 k3).
Local Notation Model := (Model F k1 k2 k3).
Local Notation __init__ := (@__init__ F sqrt has_constant k1 k2 k3).
Local Notation construct := (@construct F sqrt has_constant k1 k2 k3).

Lemma _validate_inputsP n (x : 'M[F]_(n, k1 + k2)) (z : 'M[F]_(n, k1 + k3)) hc :
  _validate_inputs has_constant x z = Ok hc ->
  [/\ (k1 + k2 != 0)%N, (k2 <= k3)%N, (k1 + k2 <= matrix_rank x)%N,
      (k1 + k3 <= matrix_rank z)%N & hc = has_constant x].
Proof.
rewrite /_validate_inputs; case: ifP => // /negbT k0.
rewrite ltnNge; case: ifP => // /negbFE k32.
rewrite ltnNge; case: ifP => // /negbFE rx.
by rewrite ltnNge; case: ifP => // /negbFE rz [<-].
Qed.

(** What a successful construction stores. *)
Lemma __init__P n (a : Args n) (self : Model (nobs (a_data a))) :
  __init__ a = Ok self ->
  let d := a_data a in
  let w := map_mx sqrt (ndarray (weights self)) in
  [/\ [/\ dependent self = drop (missing d) (a_dependent d),
          exog self = drop (missing d) (a_exog d),
          endog self = drop (missing d) (a_endog d),
          instruments self = drop (missing d) (a_instruments d)
        & weights self = drop (missing d) (normalized_weights d)],
      [/\ _y self = ndarray (dependent self), _x self = kept_x d
        & _z self = kept_z d],
      [/\ _wy self = bcast_mul (_y self) w, _wx self = bcast_mul (_x self) w
        & _wz self = bcast_mul (_z self) w],
      [/\ _has_constant self = has_constant (kept_x d),
          check_kappa (a_kappa a) = Ok (_kappa self)
        & check_fuller (a_fuller a) = Ok (_fuller self)]
    & ~~ listed_error d].
Proof.
rewrite /_IVModelBase.__init__ /=.
case: ifP => // /negbT Hw; case: ifP => // /negbT Hm.
case Ev: (_validate_inputs _ _ _) => [hc|] //=.
case Ek: (check_kappa _) => [kappa|] //=.
case Ef: (check_fuller _) => [fuller|] //= [<-] /=.
have [k0 k32 rx rz ->] := _validate_inputsP Ev.
split=> //; rewrite /listed_error /kept_x /kept_z (negbTE k0) ltnNge k32 /=.
by rewrite ltnNge rx /= ltnNge rz /= (negbTE Hw) (negbTE Hm).
Qed.

(** Construction succeeds as soon as none of its checks fails. *)
Lemma __init__ok n (a : Args n) :
  ~~ listed_error (a_data a) -> ~~ kappa_nonscalar (a_kappa a) ->
  ~~ fuller_nonscalar (a_fuller a) -> is_ok (__init__ a).
Proof.
rewrite /listed_error /kept_x /kept_z !negb_or -!leqNgt.
move=> /and5P [k0 k32 rx rz /andP [Hw Hm]] Hk Hf.
rewrite /_IVModelBase.__init__ /= (negbTE Hw) (negbTE Hm) /_validate_inputs.
rewrite (negbTE k0) ltnNge k32 /= ltnNge rx /= ltnNge rz /=.
by case: (a_kappa a) Hk => [[k|]|] //= _; case: (a_fuller a) Hf.
Qed.

Lemma __init__kappa_nonscalar n (a : Args n) :
  ~~ listed_error (a_data a) -> a_kappa a = Some NonScalar ->
  __init__ a = Raise (ValueError KappaNotScalar).
Proof.
rewrite /listed_error /kept_x /kept_z !negb_or -!leqNgt.
move=> /and5P [k0 k32 rx rz /andP [Hw Hm]] Hk.
rewrite /_IVModelBase.__init__ /= (negbTE Hw) (negbTE Hm) /_validate_inputs.
by rewrite (negbTE k0) ltnNge k32 /= ltnNge rx /= ltnNge rz /= Hk.
Qed.

Lemma __init__value_error n (a : Args n) e :
  __init__ a = Raise e -> is_value_error e.
Proof.
rewrite /_IVModelBase.__init__ /=.
case: ifP => [_ [<-] //|_]; case: ifP => [_ [<-] //|_].
rewrite /_validate_inputs.
case: ifP => [_ [<-] //|_]; case: ifP => [_ [<-] //|_].
case: ifP => [_ [<-] //|_]; case: ifP => [_ [<-] //|_] /=.
case: (a_kappa a) => [[k|]|] /=; [|by case=> <-|];
  by case: (a_fuller a) => [f|] //= [<-].
Qed.

(** A constructed model has at least one observation, and the mean its
    weights are divided by is positive: the divisions by [nobs] and by
    [nanmean(weights)] are divisions by numbers that are not zero. *)
Lemma __init__nobs_gt0 n (a : Args n) (self : Model (nobs (a_data a))) :
  __init__ a = Ok self -> (0 < nobs (a_data a))%N.
Proof.
move=> H; have [_ _ _ _] := __init__P H.
rewrite /listed_error !negb_or -!leqNgt => /and5P [k0 _ rx _ _].
by rewrite (leq_trans _ (leq_trans rx (rank_leq_row _))) // lt0n.
Qed.

Lemma nanmean_gt0 n (w : IVData F n 1) :
  ~~ any_nonpositive w -> (exists i, ~~ isnull w i) -> 0 < nanmean w.
Proof.
move=> /existsPn pos [i0 ni0].
have wpos i : ~~ isnull w i -> 0 < ndarray w i 0.
  by move=> ni; have := pos i; rewrite ni /= -ltNge.
rewrite /nanmean divr_gt0 //; last first.
  by rewrite ltr0n; apply/card_gt0P; exists i0.
have ge0 i : ~~ isnull w i -> 0 <= ndarray w i 0 by move=> /wpos /ltW.
rewrite lt0r sumr_ge0 // andbT; apply/eqP => /(psumr_eq0P ge0) s0.
by have := wpos _ ni0; rewrite s0 ?ltxx.
Qed.

Lemma __init__nanmean_gt0 n (a : Args n) (self : Model (nobs (a_data a))) :
  __init__ a = Ok self -> 0 < nanmean (supplied_weights (a_data a)).
Proof.
move=> H; have n0 := __init__nobs_gt0 H; have [_ _ _ _] := __init__P H.
rewrite /listed_error !negb_or => /and5P [_ _ _ _ /andP [pos _]].
apply: nanmean_gt0 => //.
have /card_gt0P [i] : (0 < #|[pred i | ~~ missing (a_data a) i]|)%N := n0.
rewrite inE /missing !negb_or /= => /and5P [_ _ _ _ ni].
by exists i.
Qed.

(** [IVData(x, nobs=nobs)] accepts exactly the arrays with [nobs] rows. *)
Lemma with_nobs_same n k (d : IVData F n k) : with_nobs n d = Ok d.
Proof. by rewrite /with_nobs; case: eqP => // e; rewrite (eq_axiomK e). Qed.

Lemma with_nobs_neq nobs n k (d : IVData F n k) :
  n != nobs -> with_nobs nobs d = Raise (ValueError RowCount).
Proof. by rewrite /with_nobs; case: eqP. Qed.

Lemma with_nobs_error nobs n k (d : IVData F n k) e :
  with_nobs nobs d = Raise e -> is_value_error e.
Proof. by rewrite /with_nobs; case: eqP => // _ [<-]. Qed.

(** On arrays with the same number of rows the constructor is [__init__]. *)
Lemma construct_same n (a : Args n) :
  let d := a_data a in
  construct (a_dependent d) (a_exog d) (a_endog d) (a_instruments d)
            (a_weights d) (a_fuller a) (a_kappa a)
  = (self <- __init__ a ;; Ok (existT _ _ self)).
Proof.
case: a => [[dep ex en ins w] f k] /=.
rewrite /construct !with_nobs_same /=.
case: w => [w|] //=; case: ifP => [Hw|Hw] /=; last by rewrite with_nobs_same.
by rewrite /_IVModelBase.__init__ /= Hw.
Qed.

Lemma construct_mismatch n ne nn ni nw (dep : IVData F n 1)
    (ex : IVData F ne k1) (en : IVData F nn k2) (ins : IVData F ni k3)
    (w : option (IVData F nw 1)) fuller kappa :
  rows_mismatch n ne nn ni nw (isSome w) ->
  exists e, construct dep ex en ins w fuller kappa = Raise (ValueError e).
Proof.
rewrite /rows_mismatch /construct.
have [e1|/with_nobs_neq -> _] := eqVneq ne n; last by exists RowCount.
subst ne; rewrite with_nobs_same /=.
have [e2|/with_nobs_neq -> _] := eqVneq nn n; last by exists RowCount.
subst nn; rewrite with_nobs_same /=.
have [e3|/with_nobs_neq -> _] := eqVneq ni n; last by exists RowCount.
subst ni; rewrite with_nobs_same /=.
case: w => [w|] //= /with_nobs_neq ->.
by case: ifP => _; [exists WeightsNotPositive | exists RowCount].
Qed.

Lemma construct_value_error n ne nn ni nw (dep : IVData F n 1)
    (ex : IVData F ne k1) (en : IVData F nn k2) (ins : IVData F ni k3)
    (w : option (IVData F nw 1)) fuller kappa e :
  construct dep ex en ins w fuller kappa = Raise e -> is_value_error e.
Proof.
rewrite /construct.
case E1: (with_nobs n ex) => [ex'|e1] /=; last first.
  by case=> <-; apply: with_nobs_error E1.
case E2: (with_nobs n en) => [en'|e2] /=; last first.
  by case=> <-; apply: with_nobs_error E2.
case E3: (with_nobs n ins) => [ins'|e3] /=; last first.
  by case=> <-; apply: with_nobs_error E3.
set W := (if w is Some _ then _ else _).
case E4: W => [w'|e4] /=; last first.
  case=> <-; move: E4; rewrite /W; case: (w) => [w0|] //.
  case: ifP => [_ [<-] //|_].
  by case E5: (with_nobs n w0) => [?|e5] //= [<-]; apply: with_nobs_error E5.
by case E: (__init__ _) => [self|e'] //= [<-]; apply: __init__value_error E.
Qed.

(** C8, as amended. Construction raises a [ValueError] exactly when the
    row counts mismatch across inputs, in the listed cases (no regressor,
    fewer instruments than endogenous regressors, [x] or [z] rank
    deficient, a weight that is not positive, all rows missing), when
    [kappa] is neither [None] nor a scalar, or when [fuller] is not a
    scalar; it raises nothing else, and it succeeds otherwise. *)
Theorem construction_fails_iff n ne nn ni nw (dep : IVData F n 1)
    (ex : IVData F ne k1) (en : IVData F nn k2) (ins : IVData F ni k3)
    (w : option (IVData F nw 1)) fuller kappa :
  [/\ rows_mismatch n ne nn ni nw (isSome w) ->
      exists e, construct dep ex en ins w fuller kappa = Raise (ValueError e),
      forall m (a : Args m),
        let d := a_data a in
        is_ok (construct (a_dependent d) (a_exog d) (a_endog d)
                 (a_instruments d) (a_weights d) (a_fuller a) (a_kappa a))
        = ~~ [|| listed_error d, kappa_nonscalar (a_kappa a)
               | fuller_nonscalar (a_fuller a)]
    & forall e, construct dep ex en ins w fuller kappa = Raise e ->
                is_value_error e].
Proof.
split; [exact: construct_mismatch | | exact: construct_value_error].
move=> m a /=; rewrite construct_same.
have -> : is_ok (self <- __init__ a ;; Ok (existT _ _ self))
          = is_ok (__init__ a) by case: (__init__ a).
apply/idP/idP => [|].
- case E: (__init__ a) => [self|] // _.
  have [_ _ _ [_ Hk Hf] /negbTE ->] := __init__P E.
  by case: (a_kappa a) Hk => [[k|]|] //= _; case: (a_fuller a) Hf.
- by move=> /norP [H1 /norP [H2 H3]]; apply: __init__ok.
Qed.

(** The arrays of a constructed model, entry by entry, in terms of the
    arguments of the constructor: row [i] of the model is row
    [enum_val i] of the arguments, the [i]-th row without a missing
    value. *)
Lemma __init__entries n (a : Args n) (self : Model (nobs (a_data a))) :
  __init__ a = Ok self ->
  let d := a_data a in
  let w i := ndarray (supplied_weights d) (enum_val i) 0
             / nanmean (supplied_weights d) in
  [/\ forall i j, _y self i j = ndarray (a_dependent d) (enum_val i) j,
      forall i j, _x self i j
                  = row_mx (ndarray (a_exog d)) (ndarray (a_endog d))
                      (enum_val i) j,
      forall i j, _wy self i j = _y self i j * sqrt (w i)
    & forall i j, _wx self i j = _x self i j * sqrt (w i)].
Proof.
move=> H; have /= [[Hd _ _ _ Hw] [Hy Hx _] [Hwy Hwx _] _ _] := __init__P H.
split=> i j.
- by rewrite Hy Hd !mxE.
- by rewrite Hx /kept_x !mxE; case: splitP => l _; rewrite !mxE.
- by rewrite Hwy Hw !mxE.
- by rewrite Hwx Hw !mxE.
Qed.

Lemma resids_wresidsP n (a : Args n) (self : Model (nobs (a_data a)))
    (params : 'cV[F]_(k1 + k2)) :
  __init__ a = Ok self ->
  let d := a_data a in
  let y i := ndarray (a_dependent d) (enum_val i) 0 in
  let x i j := row_mx (ndarray (a_exog d)) (ndarray (a_endog d))
                 (enum_val i) j in
  let w i := ndarray (supplied_weights d) (enum_val i) 0
             / nanmean (supplied_weights d) in
  [/\ forall i, (resids self params).1 i 0
                = y i - \sum_j x i j * params j 0,
      forall i, (wresids self params).1 i 0
                = y i * sqrt (w i) - \sum_j (x i j * sqrt (w i)) * params j 0,
      (resids self params).2 = self /\ (wresids self params).2 = self
    & forall i, (wresids self params).1 i 0
                = sqrt (w i) * (resids self params).1 i 0].
Proof.
move=> H; have /= [Ey Ex Ewy Ewx] := __init__entries H.
have R i : (resids self params).1 i 0
           = ndarray (a_dependent (a_data a)) (enum_val i) 0
             - \sum_j row_mx (ndarray (a_exog (a_data a)))
                        (ndarray (a_endog (a_data a))) (enum_val i) j
                      * params j 0.
  rewrite /= !mxE Ey; congr (_ - _).
  by apply: eq_bigr => l _; rewrite Ex.
have W i : (wresids self params).1 i 0
           = ndarray (a_dependent (a_data a)) (enum_val i) 0
             * sqrt (ndarray (supplied_weights (a_data a)) (enum_val i) 0
                     / nanmean (supplied_weights (a_data a)))
             - \sum_j (row_mx (ndarray (a_exog (a_data a)))
                         (ndarray (a_endog (a_data a))) (enum_val i) j
                       * sqrt (ndarray (supplied_weights (a_data a))
                                 (enum_val i) 0
                               / nanmean (supplied_weights (a_data a))))
                      * params j 0.
  rewrite /= !mxE Ewy Ey; congr (_ - _).
  by apply: eq_bigr => l _; rewrite Ewx Ex.
split=> // i; rewrite W R mulrBr [in RHS]mulrC; congr (_ - _).
by rewrite mulr_sumr; apply: eq_bigr => l _; rewrite mulrCA mulrA.
Qed.

(** C7. For every constructed model and every parameter vector,
    [resids(params)] is [y - x @ params] on the rows kept of the raw data,
    [wresids(params)] is [wy - wx @ params] on the data weighted by the
    square roots of the normalized weights, neither call changes the
    model, and [wresids(params)] is the square root of the normalized
    weights times [resids(params)], row by row. *)
Theorem resids_wresids n (a : Args n) (self : Model (nobs (a_data a)))
    (params : 'cV[F]_(k1 + k2)) :
  __init__ a = Ok self ->
  let d := a_data a in
  let y i := ndarray (a_dependent d) (enum_val i) 0 in
  let x i j := row_mx (ndarray (a_exog d)) (ndarray (a_endog d))
                 (enum_val i) j in
  let w i := ndarray (supplied_weights d) (enum_val i) 0
             / nanmean (supplied_weights d) in
  [/\ forall i, (resids self params).1 i 0
                = y i - \sum_j x i j * params j 0,
      forall i, (wresids self params).1 i 0
                = y i * sqrt (w i) - \sum_j (x i j * sqrt (w i)) * params j 0,
      (resids self params).2 = self /\ (wresids self params).2 = self
    & forall i, (wresids self params).1 i 0
                = sqrt (w i) * (resids self params).1 i 0].
Proof. exact: resids_wresidsP. Qed.

End ModelFacts.

(** ** Shared post-estimation *)

Section PostEstimationFacts.

Import _IVModelBase.

Variable F : realFieldType.
Variable sqrt : F -> F.
Variables k1 k2 k3 : nat.

Local Notation Model := (Model F k1 k2 k3).

Lemma trmul_col n (u v : 'cV[F]_n) : (u^T *m v) 0 0 = \sum_i u i 0 * v i 0.
Proof. by rewrite mxE; apply: eq_bigr => i _; rewrite mxE. Qed.

(** What [_post_estimation] computes. *)
Lemma _post_estimationP nobs (self : Model nobs)
    (params : 'cV[F]_(k1 + k2)) (pe : PostEstimation F k1 k2 nobs) :
  _post_estimation sqrt self params = Ok pe ->
  let weps := (wresids self params).1 in
  let w := ndarray (weights self) in
  [/\ residual_ss pe = \sum_i weps i 0 ^+ 2,
      exists2 e : 'cV[F]_nobs,
        (if _has_constant self
         then exists2 avg, average (_y self) w = Ok avg
              & e = \col_i (_wy self i 0 - sqrt (w i 0) * avg)
         else e = _wy self)
        & total_ss pe = \sum_i e i 0 ^+ 2,
      r2 pe = (if total_ss pe == 0 then None
               else Some (1 - residual_ss pe / total_ss pe))
    & weps = 0 -> total_ss pe != 0 -> r2 pe = Some 1].
Proof.
rewrite /_post_estimation /=.
set weps := _wy self - _ => H.
have [e He [<-] /=] : exists2 e : 'cV[F]_nobs,
    (if _has_constant self
     then exists2 avg, average (_y self) (ndarray (weights self)) = Ok avg
          & e = \col_i (_wy self i 0
                         - sqrt (ndarray (weights self) i 0) * avg)
     else e = _wy self)
    & Ok (mkPostEstimation params (_y self - _x self *m params) weps
            ((weps^T *m weps) 0 0) ((e^T *m e) 0 0)
            (omap (fun q => 1 - q)
               (fdiv ((weps^T *m weps) 0 0) ((e^T *m e) 0 0)))) = Ok pe.
  case: (_has_constant self) H => /=; last by exists (_wy self).
  case E: (average _ _) => [avg|] //= H.
  exists (\col_i (_wy self i 0 - sqrt (ndarray (weights self) i 0) * avg)).
    by exists avg.
  rewrite -H; congr (Ok (mkPostEstimation _ _ _ _ _ _)).
    by congr ((_^T *m _) 0 0); apply/matrixP => i j; rewrite !mxE ord1.
  congr (omap _ (fdiv _ _)); congr ((_^T *m _) 0 0);
    by apply/matrixP => i j; rewrite !mxE ord1.
have sq (u : 'cV[F]_nobs) : (u^T *m u) 0 0 = \sum_i u i 0 ^+ 2.
  by rewrite trmul_col; apply: eq_bigr => i _; rewrite expr2.
split.
- exact: sq.
- by exists e; rewrite // sq.
- by rewrite /fdiv; case: ifP.
- move=> w0 tss0; rewrite /fdiv (negbTE tss0) /= w0 trmx0 mul0mx mxE.
  by rewrite mul0r subr0.
Qed.

(** C9, as amended. In shared post-estimation [R2 = 1 - RSS/TSS], where
    [RSS] is the sum of squares of the weighted residuals and [TSS] the
    sum of squares of the weighted dependent variable, from which the
    square root of the weights times the weighted average of [y] is taken
    off exactly when the model has a constant; [R2] is a number when [TSS]
    is not zero, and then it equals [1] whenever the weighted residuals
    are identically zero. *)
Theorem r2_post_estimation nobs (self : Model nobs)
    (params : 'cV[F]_(k1 + k2)) (pe : PostEstimation F k1 k2 nobs) :
  _post_estimation sqrt self params = Ok pe ->
  let weps := (wresids self params).1 in
  let w := ndarray (weights self) in
  [/\ residual_ss pe = \sum_i weps i 0 ^+ 2,
      exists2 e : 'cV[F]_nobs,
        (if _has_constant self
         then exists2 avg, average (_y self) w = Ok avg
              & e = \col_i (_wy self i 0 - sqrt (w i 0) * avg)
         else e = _wy self)
        & total_ss pe = \sum_i e i 0 ^+ 2,
      r2 pe = (if total_ss pe == 0 then None
               else Some (1 - residual_ss pe / total_ss pe))
    & weps = 0 -> total_ss pe != 0 -> r2 pe = Some 1].
Proof. exact: _post_estimationP. Qed.

End PostEstimationFacts.

(** ** The example data *)

Section SimpleData.

Import _IVModelBase.

Variable F : realFieldType.
Variable sqrt : F -> F.
Variable has_constant : forall n k, 'M[F]_(n, k) -> bool.

Local Notation __init__ := (@__init__ F sqrt has_constant 1 0 0).

Lemma toy_simple (y : 'cV[F]_2) : simple (toy_data y).
Proof. by split. Qed.

Lemma rank_const_col n (c : F) :
  (0 < n)%N -> c != 0 -> \rank (const_mx c : 'M[F]_(n, 1)) = 1%N.
Proof.
move=> n0 c0; apply/eqP; rewrite eqn_leq rank_leq_col /= lt0n mxrank_eq0.
apply/eqP => /matrixP /(_ (Ordinal n0) 0); rewrite !mxE => /eqP.
by rewrite (negbTE c0).
Qed.

Section OneData.

Variables (n : nat) (d : Data F 1 0 0 n).
Hypothesis sd : simple d.

Lemma simple_nobs : nobs d = n.
Proof.
have [_ m0 _ _] := sd.
rewrite /nobs /nkept -[RHS](card_ord n); apply: eq_card => i.
by rewrite !inE m0.
Qed.

Lemma simple_notnull i : isnull (supplied_weights d) i = false.
Proof.
have [_ /(_ i) m0 _ _] := sd; apply: contraFF m0; rewrite /missing /= => ->.
by rewrite !orbT.
Qed.

Lemma simple_nanmean : nanmean (supplied_weights d) = 1.
Proof.
have [n0 _ _ w1] := sd; rewrite /nanmean w1.
have E : (fun i => ~~ isnull (supplied_weights d) i) =1 predT.
  by move=> i; rewrite simple_notnull.
have C : #|[pred i | ~~ isnull (supplied_weights d) i]| = n.
  by rewrite -[RHS]card_ord; apply: eq_card => i; rewrite !inE E.
have S : \sum_(i < n) (const_mx 1 : 'cV[F]_n) i 0 = n%:R.
  rewrite (eq_bigr (fun=> 1)) => [i _|]; first by rewrite mxE.
  by rewrite sumr_const card_ord.
by rewrite (eq_bigl _ _ E) C S divff // pnatr_eq0 -lt0n.
Qed.

Lemma simple_kept_x : kept_x d = const_mx 1.
Proof.
have [_ _ x1 _] := sd.
apply/matrixP => i j; rewrite /kept_x mxE; case: splitP => k _; last by case: k.
by rewrite !mxE x1 mxE.
Qed.

Lemma simple_kept_z : kept_z d = const_mx 1.
Proof.
have [_ _ x1 _] := sd.
apply/matrixP => i j; rewrite /kept_z mxE; case: splitP => k _; last by case: k.
by rewrite !mxE x1 mxE.
Qed.

Lemma simple_weights_positive : ~~ any_nonpositive (supplied_weights d).
Proof.
have [_ _ _ w1] := sd.
apply/existsP => -[i /andP [_]]; rewrite w1 mxE => /idPn; apply.
by rewrite -ltNge ltr01.
Qed.

Lemma simple_listed : ~~ listed_error d.
Proof.
have [n0 m0 _ _] := sd.
rewrite /listed_error /= simple_kept_x simple_kept_z /matrix_rank.
rewrite !rank_const_col ?oner_neq0 ?simple_nobs //=.
rewrite (negbTE simple_weights_positive) /= /all_missing negb_and; apply/orP; left.
by apply/existsP => -[i]; rewrite m0.
Qed.

Lemma simple_init (fuller : F) (kappa : option F) :
  exists self, __init__ (mkArgs d (Scalar fuller) (omap (@Scalar F) kappa))
               = Ok self.
Proof.
have := @__init__ok F sqrt has_constant 1 0 0 n
          (mkArgs d (Scalar fuller) (omap (@Scalar F) kappa)) simple_listed.
case: (__init__ _) => [self _|e]; first by exists self.
by case: kappa => [k|] /= /(_ isT isT).
Qed.

(** The model built from such data. *)
Lemma simple_model (fuller : F) (kappa : option F) self :
  __init__ (mkArgs d (Scalar fuller) (omap (@Scalar F) kappa)) = Ok self ->
  [/\ _y self = ndarray (drop (missing d) (a_dependent d))
      /\ _wy self = sqrt 1 *: _y self,
      _x self = const_mx 1 /\ _wx self = const_mx (sqrt 1),
      _wz self = const_mx (sqrt 1),
      ndarray (weights self) = const_mx 1
    & _kappa self = kappa /\ _fuller self = fuller].
Proof.
move=> H; have /= [[Hd _ _ _ Hw] [Hy Hx Hz] [Hwy Hwx Hwz] [_ Hk Hf] _] :=
  __init__P H.
have [_ _ _ w1] := sd.
have w1' : ndarray (weights self) = const_mx 1.
  by rewrite Hw; apply/matrixP => i j; rewrite !mxE simple_nanmean divr1 w1 mxE.
have sw : map_mx sqrt (ndarray (weights self)) = const_mx (sqrt 1).
  by rewrite w1'; apply/matrixP => i j; rewrite !mxE.
split=> //.
- split; first by rewrite Hy Hd.
  by rewrite Hwy sw; apply/matrixP => i j; rewrite !mxE mulrC.
- split; first by rewrite Hx simple_kept_x.
  by rewrite Hwx sw Hx simple_kept_x; apply/matrixP => i j; rewrite !mxE mul1r.
- by rewrite Hwz sw Hz simple_kept_z; apply/matrixP => i j; rewrite !mxE mul1r.
- have ck k : check_kappa (omap (@Scalar F) k) = Ok k by case: k.
  by move: Hk Hf; rewrite ck /= => -[<-] [<-].
Qed.

(** The data of the model built are of the same shape. *)
Lemma simple_data_of (fuller : F) (kappa : option F) self :
  __init__ (mkArgs d (Scalar fuller) (omap (@Scalar F) kappa)) = Ok self ->
  simple (data_of self).
Proof.
move=> H; have /= [[Hd Hx He Hi Hw] _ _ _ _] := __init__P H.
have [_ _ _ w1 _] := simple_model H.
have [n0 m0 x1 _] := sd; split=> //=.
- by rewrite simple_nobs.
- move=> i; rewrite /missing /= /supplied_weights /= Hd Hx He Hi Hw /=.
  by have := m0 (enum_val i); rewrite /missing /=.
- by rewrite Hx /=; apply/matrixP => i j; rewrite !mxE x1 mxE.
Qed.

End OneData.

End SimpleData.

(** ** The k-class [fit] *)

Section FitFacts.

Import _IVModelBase _IVLSModelBase.

Variable F : realFieldType.
Variable sqrt : F -> F.
Variable has_constant : forall n k, 'M[F]_(n, k) -> bool.
Variable pinv : forall m n, 'M[F]_(m, n) -> 'M[F]_(n, m).
Variable inv_sqrth : forall n, 'M[F]_n -> 'M[F]_n.
Variable eigvalsh : forall n, 'M[F]_n -> seq F.
Variables k1 k2 k3 : nat.

Local Notation Model := (Model F k1 k2 k3).
Local Notation __init__ := (@__init__ F sqrt has_constant k1 k2 k3).
Local Notation fit := (@fit F sqrt pinv inv_sqrth eigvalsh k1 k2 k3).
Local Notation _estimate_kappa :=
  (@_estimate_kappa F pinv inv_sqrth eigvalsh k1 k2 k3).
Local Notation estimate_parameters := (_IVLSModelBase.estimate_parameters pinv).

(** What a successful [fit] returns. *)
Lemma fitP nobs (self : Model nobs) cov_type (res : IVResults F k1 k2 nobs) :
  fit self cov_type = Ok res ->
  [/\ liml_kappa res = _estimate_kappa self,
      kappa res
      = (if _kappa self is Some k then k else liml_kappa res)
        - (if _fuller self != 0
           then _fuller self / (nobs%:Z - (k1 + k3)%:Z)%:~R else 0),
      _fuller self != 0 -> nobs != (k1 + k3)%N,
      estimate_parameters (_wx self) (_wy self) (_wz self) (kappa res)
      = Ok (params (post res))
    & _post_estimation sqrt self (params (post res)) = Ok (post res)].
Proof.
rewrite /_IVLSModelBase.fit /=.
set k0 := (if _kappa self is Some k then k else _).
set ek := (if _fuller self != 0 then _ else _).
case Eek: ek => [est|] //=.
case Eep: (_IVLSModelBase.estimate_parameters _ _ _ _ _) => [p|] //=.
case: (registry_get _ _) => [c|] //=.
case Epe: (_post_estimation _ _ _) => [pe|] //= [<-] /=.
have Hp : params pe = p.
  move: Epe; rewrite /_post_estimation.
  by case: (if _has_constant self then _ else _) => [e|] //= [<-].
rewrite Hp; split=> //.
- move: Eek; rewrite /ek /py_div; case: ifP => _; last first.
    by case=> <-; rewrite subr0.
  by case: ifP => // _ [<-].
- move=> f0; move: Eek; rewrite /ek /py_div f0.
  case: ifP => // /negbT; rewrite subr_eq0 => neq _.
  by apply: contraNneq neq => ->.
Qed.

(** C3, as amended. For every model constructed with an explicit [kappa],
    the kappa [fit] uses for the parameter estimate is the value supplied
    when [fuller] is zero, and the value supplied minus
    [fuller / (nobs - ninstr)] when [fuller] is not zero; the LIML kappa is
    still computed and reported separately as [liml_kappa]. *)
Theorem explicit_kappa_in_fit n (a : Args F k1 k2 k3 n)
    (self : Model (nobs (a_data a))) cov_type
    (res : IVResults F k1 k2 (nobs (a_data a))) (k fuller : F) :
  __init__ a = Ok self ->
  a_kappa a = Some (Scalar k) -> a_fuller a = Scalar fuller ->
  fit self cov_type = Ok res ->
  [/\ kappa res
      = (if fuller == 0 then k
         else k - fuller / ((nobs (a_data a))%:Z - (k1 + k3)%:Z)%:~R),
      estimate_parameters (_wx self) (_wy self) (_wz self) (kappa res)
      = Ok (params (post res))
    & liml_kappa res = _estimate_kappa self].
Proof.
move=> Hi Hk Hf Hfit.
have [_ _ _ [_ ]] := __init__P Hi; rewrite Hk Hf /= => -[Ek] [Ef] _.
have [Hl Hkap _ Hp _] := fitP Hfit; split=> //.
by rewrite Hkap -Ek -Ef; case: (fuller == 0) => /=; rewrite ?subr0.
Qed.

Lemma _post_estimation_ok nobs (self : Model nobs) (p : 'cV[F]_(k1 + k2)) :
  \sum_i ndarray (weights self) i 0 != 0 ->
  exists pe, _post_estimation sqrt self p = Ok pe.
Proof.
move=> w0; rewrite /_post_estimation /average (negbTE w0).
by case: (_has_constant self) => /=; eexists.
Qed.

End FitFacts.

Section SameRegressors.

Variable F : realFieldType.

(** With [z = x] of full column rank every k-class estimate is the OLS
    estimate. *)
Lemma estimate_parameters_same n k (x : 'M[F]_(n, k)) (y : 'cV[F]_n) kappa :
  x^T *m x \in unitmx ->
  _IVLSModelBase.estimate_parameters (@pinv_fcr F) x y x kappa
  = Ok (invmx (x^T *m x) *m (x^T *m y)).
Proof.
move=> xu; rewrite estimate_parametersE /spec_kclass /spec_P1 /spec_P2.
have -> : pinv_fcr x *m x = 1%:M by rewrite /pinv_fcr -mulmxA mulVmx.
rewrite mulmx1 -scalerDl subrK scale1r inv_unit //=.
rewrite /pinv_fcr !mulmxA mulmxV // mul1mx.
by rewrite -scalerDl subrK scale1r mulmxA.
Qed.

Lemma const_col_gram n (s : F) :
  (const_mx s : 'M[F]_(n, 1))^T *m const_mx s = (n%:R * s ^+ 2)%:M.
Proof.
apply/matrixP => i j; rewrite !ord1 !mxE eqxx mulr1n.
rewrite (eq_bigr (fun=> s ^+ 2)) => [l _|]; first by rewrite !mxE expr2.
by rewrite sumr_const card_ord mulr_natl.
Qed.

Lemma const_col_gram_unit n (s : F) :
  (0 < n)%N -> s != 0 ->
  (const_mx s : 'M[F]_(n, 1))^T *m const_mx s \in unitmx.
Proof.
move=> n0 s0; rewrite const_col_gram unitmxE det_scalar1 unitfE.
by rewrite mulf_neq0 ?expf_neq0 // pnatr_eq0 -lt0n.
Qed.

End SameRegressors.

Section SimpleFit.

Import _IVModelBase _IVLSModelBase.

Variable F : realFieldType.
Variable sqrt : F -> F.
Variable has_constant : forall n k, 'M[F]_(n, k) -> bool.
Variable inv_sqrth : forall n, 'M[F]_n -> 'M[F]_n.
Variable eigvalsh : forall n, 'M[F]_n -> seq F.
Hypothesis sqrt1 : sqrt 1 != 0.
Variables (n : nat) (d : Data F 1 0 0 n).
Hypothesis sd : simple d.

Local Notation __init__ := (@__init__ F sqrt has_constant 1 0 0).
Local Notation fit := (@fit F sqrt (@pinv_fcr F) inv_sqrth eigvalsh 1 0 0).

Lemma robust_registered :
  registry_get "robust"%string COVARIANCE_ESTIMATORS
  = Ok HeteroskedasticCovariance.
Proof. by []. Qed.

Lemma py_div_ok (a : F) (b : int) : b != 0 -> py_div a b = Ok (a / b%:~R).
Proof. by rewrite /py_div => /negbTE ->. Qed.

Lemma inv_scalar1 (c : F) : c != 0 -> inv (c%:M : 'M[F]_1) = Ok (c^-1)%:M.
Proof.
by move=> c0; rewrite inv_unit ?invmx_scalar // unitmxE det_scalar1 unitfE.
Qed.

Lemma simple_nobs_gt0 : (0 < nobs d)%N.
Proof. by have [n0 _ _ _] := sd; rewrite (simple_nobs sd). Qed.

Lemma simple_gram_neq0 : (nobs d)%:R * sqrt 1 ^+ 2 != 0 :> F.
Proof. by rewrite mulf_neq0 ?expf_neq0 // pnatr_eq0 -lt0n simple_nobs_gt0. Qed.

Lemma simple_weights_sum (fuller : F) (kappa : option F) self :
  __init__ (mkArgs d (Scalar fuller) (omap (@Scalar F) kappa)) = Ok self ->
  \sum_i ndarray (weights self) i 0 != 0.
Proof.
move=> H; have [_ _ _ -> _] := simple_model sd H.
rewrite (eq_bigr (fun=> 1)) => [i _|]; first by rewrite mxE.
by rewrite sumr_const card_ord pnatr_eq0 -lt0n simple_nobs_gt0.
Qed.

Lemma simple_estimate (fuller : F) (kappa : option F) self (k : F) :
  __init__ (mkArgs d (Scalar fuller) (omap (@Scalar F) kappa)) = Ok self ->
  exists p, estimate_parameters (@pinv_fcr F) (_wx self) (_wy self) (_wz self) k
            = Ok p.
Proof.
move=> H; have [_ [_ ->] -> _ _] := simple_model sd H.
rewrite estimate_parameters_same;
  first exact: (const_col_gram_unit simple_nobs_gt0 sqrt1).
by eexists.
Qed.

(** [fit] succeeds on the model built from such data. *)
Lemma simple_fit (fuller : F) (kappa : option F) self :
  (fuller != 0 -> n != 1%N) ->
  __init__ (mkArgs d (Scalar fuller) (omap (@Scalar F) kappa)) = Ok self ->
  exists res, fit self "robust"%string = Ok res.
Proof.
move=> dof H; rewrite /_IVLSModelBase.fit /=.
set k0 := (if _kappa self is Some k then k else _).
have [_ _ _ _ [_ Hf]] := simple_model sd H.
have [ek -> /=] : exists ek,
    (if _fuller self != 0
     then q <- py_div (_fuller self) ((nobs d)%:Z - (1 + 0)%N%:Z) ;;
          Ok (k0 - q)
     else Ok k0) = Ok ek.
  case: ifP => [|_]; last by exists k0.
  rewrite Hf => /dof n1; rewrite py_div_ok /=; last by eexists.
  by rewrite (simple_nobs sd) subr_eq0.
have [p -> /=] := simple_estimate ek H.
have [pe -> /=] := _post_estimation_ok sqrt p (simple_weights_sum H).
by eexists.
Qed.

End SimpleFit.

(** ** The GMM estimators *)

Section GMMFacts.

Import _IVModelBase _IVGMMBase IVGMM.

Variable F : realFieldType.
Variable sqrt : F -> F.
Variable has_constant : forall n k, 'M[F]_(n, k) -> bool.
Variable pinv : forall m n, 'M[F]_(m, n) -> 'M[F]_(n, m).
Variable inv_sqrth : forall n, 'M[F]_n -> 'M[F]_n.
Variable eigvalsh : forall n, 'M[F]_n -> seq F.
Variable strategy : Type.
Variable new_strategy : weight_class -> dict -> result strategy.
Variable config : strategy -> dict.
Variable weight_matrix :
  strategy -> forall n k m, 'M[F]_(n, k) -> 'M[F]_(n, m) -> 'cV[F]_n -> 'M[F]_m.
Variables k1 k2 k3 : nat.

Local Notation Model := (_IVGMMBase.Model F strategy k1 k2 k3).
Local Notation LoopState := (LoopState F k1 k2 k3).
Local Notation loop_body := (@loop_body F strategy weight_matrix k1 k2 k3).
Local Notation loop := (@loop F strategy weight_matrix k1 k2 k3).
Local Notation passes := (@passes F strategy weight_matrix k1 k2 k3).
Local Notation fit :=
  (@fit F sqrt has_constant pinv inv_sqrth eigvalsh strategy weight_matrix
        k1 k2 k3).

(** One pass of the body. *)
Lemma loop_bodyP nobs (self : Model nobs) (st st' : LoopState) :
  loop_body self st = Ok st' ->
  let wx := _wx (base self) in
  let wy := _wy (base self) in
  let wz := _wz (base self) in
  let delta := ls_params st' - ls__params st in
  let xpz := arr_div_scalar (wx^T *m wz) nobs%:R in
  [/\ ls_iters st' = (ls_iters st).+1 /\ ls__params st' = ls_params st',
      inv (weight_matrix (_weight self) wx wz (wy - wx *m ls_params st))
      = Ok (ls_wmat st'),
      estimate_parameters wx wy wz (ls_wmat st') = Ok (ls_params st'),
      (if ls_iters st == 1%N
       then inv (arr_div_scalar (xpz *m ls_wmat st' *m xpz^T) nobs%:R)
            = Ok (ls_vinv st')
       else ls_vinv st' = ls_vinv st)
    & ls_norm st' = (delta^T *m ls_vinv st' *m delta) 0 0].
Proof.
rewrite /IVGMM.loop_body /=.
case Ew: (inv _) => [wmat|] //=.
case Ep: (estimate_parameters _ _ _ _) => [p|] //=.
case: ifP => i1.
  by case Ev: (inv _) => [v|] //= [<-] /=; split.
by case=> <- /=; split.
Qed.

(** The loop follows the passes of the body. *)
Lemma loop_passes nobs (self : Model nobs) iter_limit tol fuel (st st' : LoopState) :
  loop self iter_limit tol fuel st = Ok st' -> passes self iter_limit tol st st'.
Proof.
have trans s1 s2 s3 : loop_cond iter_limit tol s1 -> loop_body self s1 = Ok s2 ->
    passes self iter_limit tol s2 s3 -> passes self iter_limit tol s1 s3.
  move=> c b; elim=> [|s4 s5 _ IH c4 b4]; last exact: passes_step IH c4 b4.
  by apply: passes_step c b; apply: passes_refl.
elim: fuel st => [|fuel IH] st /=; first by case=> <-; apply: passes_refl.
case: ifP => [c|_]; last by case=> <-; apply: passes_refl.
case Eb: (loop_body self st) => [s1|] //= /IH; exact: trans.
Qed.

(** With [iter_limit] passes of fuel the loop stops because its condition
    fails, not because the fuel runs out. *)
Lemma loop_exit nobs (self : Model nobs) iter_limit tol fuel (st st' : LoopState) :
  (iter_limit <= (ls_iters st + fuel)%N%:Z) ->
  loop self iter_limit tol fuel st = Ok st' -> ~~ loop_cond iter_limit tol st'.
Proof.
elim: fuel st => [|fuel IH] st /=.
  by rewrite addn0 => le [<-]; rewrite /loop_cond ltNge le.
move=> le; case: ifP => [c|/negbT c]; last by case=> <-.
case Eb: (loop_body self st) => [s1|] //=; apply: IH.
by have [[-> _] _ _ _ _] := loop_bodyP Eb; rewrite addSnnS.
Qed.

(** C5. In the loop of [IVGMM.fit] the normalization [vinv] is computed
    in the first pass only, from the weight matrix of that pass, and every
    later pass measures the change of the parameters with that same
    matrix: [norm = delta' vinv delta] with [vinv] never recomputed. *)
Theorem vinv_computed_once nobs (self : Model nobs) iter_limit tol
    (params0 : 'cV[F]_(k1 + k2)) (wmat0 : 'M[F]_(k1 + k3)) (st1 : LoopState) :
  loop_body self (loop_init tol params0 wmat0) = Ok st1 ->
  let wx := _wx (base self) in
  let wz := _wz (base self) in
  let xpz := arr_div_scalar (wx^T *m wz) nobs%:R in
  [/\ inv (arr_div_scalar (xpz *m ls_wmat st1 *m xpz^T) nobs%:R)
      = Ok (ls_vinv st1),
      forall st, passes self iter_limit tol st1 st -> ls_vinv st = ls_vinv st1
    & forall st st', passes self iter_limit tol st1 st ->
        loop_body self st = Ok st' ->
        let delta := ls_params st' - ls_params st in
        ls_vinv st' = ls_vinv st1
        /\ ls_norm st' = (delta^T *m ls_vinv st1 *m delta) 0 0].
Proof.
move=> B1 /=; have [[I1 Q1] _ _ V1 _] := loop_bodyP B1.
have inv_st st : passes self iter_limit tol st1 st ->
    [/\ (1 < ls_iters st)%N, ls__params st = ls_params st
      & ls_vinv st = ls_vinv st1].
  elim=> [|s2 s3 _ [i2 q2 v2] _ B]; first by rewrite I1.
  have [[-> ->] _ _ V _] := loop_bodyP B; split=> //; first exact: ltnW.
  by move: V; rewrite -v2; case: ifP => // /eqP i1; rewrite i1 in i2.
split=> [|st /inv_st [] //|st st' /inv_st [i q v] B]; first exact: V1.
have [_ _ _ V ->] := loop_bodyP B.
have -> : ls_vinv st' = ls_vinv st1.
  by move: V; rewrite -v; case: ifP => // /eqP i1; rewrite i1 in i.
by rewrite q.
Qed.

(** The J statistic [fit] reports is computed from the final parameters
    and the final weight matrix; after at least one pass of the loop the
    final parameters are the GMM estimate under the final weight matrix. *)
Lemma fit_j_statistic nobs (self : Model nobs) iter_limit tol initial_weight
    (res : IVGMMResults F k1 k2 k3 nobs) :
  fit self iter_limit tol initial_weight = Ok res ->
  let p := params (post res) in
  let W := weight_mat (gmm_post res) in
  j_stat (gmm_post res) = _j_statistic self p W
  /\ ((1 < iterations (gmm_post res))%N ->
      estimate_parameters (_wx (base self)) (_wy (base self))
        (_wz (base self)) W = Ok p).
Proof.
rewrite /IVGMM.fit /=.
case: (if initial_weight is Some w then _ else _) => [wmat|] //=.
case: (IV2SLS.__init__ _ _ _) => [sv|] //=.
case: (_IVLSModelBase.fit _ _ _ _ _ _) => [r|] //=.
set st0 := loop_init _ _ _.
case El: (loop _ _ _ _ _) => [st|] //=.
case Ep: (_post_estimation _ _ _) => [pe|] //= [<-] /=.
have -> : params pe = ls_params st.
  move: Ep; rewrite /_post_estimation.
  by case: (if _has_constant (base self) then _ else _) => [e|] //= [<-].
split=> //.
have : passes self iter_limit tol st0 st := loop_passes El.
case=> [|s1 s2 _ _ B]; first by rewrite ltnn.
by have [_ _ ? _ _] := loop_bodyP B.
Qed.

End GMMFacts.

(** ** The J statistic *)

Section JStatistic.

Import _IVModelBase _IVGMMBase.

Variable F : realFieldType.
Variable strategy : Type.

Lemma mean0_moments n m (z : 'M[F]_(n, m)) (eps : 'cV[F]_n) :
  mean0 (bcast_mul z eps) = n%:R^-1 *: (z^T *m eps)^T.
Proof.
apply/matrixP => i j; rewrite !mxE mulrC (ord1 i); congr (_ * _).
by apply: eq_bigr => l _; rewrite !mxE.
Qed.

(** In an exactly identified model the GMM estimate solves the moment
    conditions [z'(y - x b) = 0], whatever the weight matrix. *)
Lemma gmm_solves_moments n k (x : 'M[F]_(n, k)) (y : 'cV[F]_n)
    (z : 'M[F]_(n, k)) (w : 'M[F]_k) (b : 'cV[F]_k) :
  IVGMM.estimate_parameters x y z w = Ok b -> z^T *m (y - x *m b) = 0.
Proof.
rewrite /IVGMM.estimate_parameters /=.
case E: (inv _) => [a|] //= [<-]; have [u ->] := invE E.
set A := x^T *m z in u *; set C := z^T *m y.
have /and3P [Au wu _] : [&& A \in unitmx, w \in unitmx & A^T \in unitmx].
  by rewrite andbA -!unitmx_mul.
have H : A^T *m (invmx (A *m w *m A^T) *m (A *m w *m C)) = C.
  apply: (can_inj (mulKmx wu)); apply: (can_inj (mulKmx Au)).
  set X := invmx _ *m _.
  have -> : A *m (w *m (A^T *m X)) = A *m w *m A^T *m X by rewrite !mulmxA.
  by rewrite /X mulKVmx // mulmxA.
rewrite mulmxBr -/C; apply/eqP; rewrite subr_eq0 eq_sym; apply/eqP.
by rewrite -[RHS]H /A trmx_mul trmxK !mulmxA.
Qed.

Lemma posdef1 n : posdef (1%:M : 'M[F]_n).
Proof.
move=> v v0; rewrite mulmx1 mxE.
have [j vj] : exists j, v 0 j != 0.
  apply/existsP; apply: contraNT v0; rewrite negb_exists => /forallP v0.
  by apply/eqP/matrixP => i j; rewrite (ord1 i) mxE; apply/eqP; have := v0 j; rewrite negbK.
rewrite (bigD1 j) //= mxE -expr2.
rewrite (@lt_le_trans _ _ (v 0 j ^+ 2)) // ?lerDl.
  by rewrite lt0r sqrf_eq0 vj sqr_ge0.
by apply: sumr_ge0 => i _; rewrite mxE -expr2 sqr_ge0.
Qed.


End JStatistic.

(** ** [IVGMM.fit] with [iter_limit = 1] *)

Section OneStep.

Import _IVModelBase _IVGMMBase IVGMM.

Variable F : realFieldType.
Variable sqrt : F -> F.
Variable has_constant : forall n k, 'M[F]_(n, k) -> bool.
Variable pinv : forall m n, 'M[F]_(m, n) -> 'M[F]_(n, m).
Variable inv_sqrth : forall n, 'M[F]_n -> 'M[F]_n.
Variable eigvalsh : forall n, 'M[F]_n -> seq F.
Variable strategy : Type.
Variable weight_matrix :
  strategy -> forall n k m, 'M[F]_(n, k) -> 'M[F]_(n, m) -> 'cV[F]_n -> 'M[F]_m.
Variables k1 k2 k3 : nat.

Local Notation Model := (_IVGMMBase.Model F strategy k1 k2 k3).
Local Notation fit :=
  (@fit F sqrt has_constant pinv inv_sqrth eigvalsh strategy weight_matrix
        k1 k2 k3).

Lemma _post_estimation_params nobs (self : _IVModelBase.Model F k1 k2 k3 nobs)
    (p : 'cV[F]_(k1 + k2)) pe :
  _post_estimation sqrt self p = Ok pe -> params pe = p.
Proof.
rewrite /_post_estimation.
by case: (if _has_constant self then _ else _) => [e|] //= [<-].
Qed.

(** What [fit] returns with [iter_limit=1].  The loop is not entered: the
    iteration count reported is 1, the weight matrix reported is the
    initial one ([inverse(z'z/n)], or [initial_weight] when given), and
    the point estimate is the estimate of the [IV2SLS] model built from
    the same data, whatever the initial weight matrix is. *)
Lemma fit_one_passP nobs (self : Model nobs) (tol : F)
    (initial_weight : option 'M[F]_(k1 + k3))
    (res : IVGMMResults F k1 k2 k3 nobs) :
  fit self 1 tol initial_weight = Ok res ->
  exists sv r,
    [/\ IV2SLS.__init__ sqrt has_constant
          (mkData (dependent (base self)) (exog (base self))
                  (endog (base self)) (instruments (base self))
                  (Some (weights (base self)))) = Ok sv,
        _IVLSModelBase.fit sqrt pinv inv_sqrth eigvalsh sv "robust"%string
        = Ok r,
        params (post res) = params (_IVLSModelBase.post r),
        iterations (gmm_post res) = 1%N
      & (if initial_weight is Some w then Ok w
         else inv (arr_div_scalar ((_wz (base self))^T *m _wz (base self))
                     nobs%:R))
        = Ok (weight_mat (gmm_post res))].
Proof.
rewrite /IVGMM.fit /=.
case Ew: (if initial_weight is Some w then _ else _) => [wmat|] //=.
case Es: (IV2SLS.__init__ _ _ _) => [sv|] //=.
case Er: (_IVLSModelBase.fit _ _ _ _ _ _) => [r|] //=.
case Ep: (_post_estimation _ _ _) => [pe|] //= [<-] /=.
by exists sv, r; split=> //; rewrite (_post_estimation_params Ep).
Qed.

(** With [iter_limit=1] the point estimate does not depend on the initial
    weight matrix. *)
Lemma initial_weight_ignored nobs (self : Model nobs) (tol : F)
    (w1 w2 : 'M[F]_(k1 + k3)) (res1 res2 : IVGMMResults F k1 k2 k3 nobs) :
  fit self 1 tol (Some w1) = Ok res1 -> fit self 1 tol (Some w2) = Ok res2 ->
  params (post res1) = params (post res2).
Proof.
move=> /fit_one_passP [sv1 [r1 [S1 R1 -> _ _]]].
move=> /fit_one_passP [sv2 [r2 [S2 R2 -> _ _]]].
by move: S2 R2; rewrite S1 => -[<-]; rewrite R1 => -[<-].
Qed.

End OneStep.

(** ** The constructor of [IVGMMCUE] *)

Section CUEFacts.

Import _IVModelBase _IVGMMBase.

Variable F : realFieldType.
Variable sqrt : F -> F.
Variable has_constant : forall n k, 'M[F]_(n, k) -> bool.
Variable strategy : Type.
Variable new_strategy : weight_class -> dict -> result strategy.
Variable config : strategy -> dict.
Variables k1 k2 k3 : nat.

Local Notation Model := (_IVGMMBase.Model F strategy k1 k2 k3).

Lemma load_last d h : load (size h) (rcons h d) = d.
Proof. by rewrite /load nth_rcons ltnn eqxx. Qed.

Lemma load_rcons l d h : (l < size h)%N -> load l (rcons h d) = load l h.
Proof. by move=> lt; rewrite /load nth_rcons lt. Qed.

Lemma load_store l l' d h :
  load l (store l' d h) = if (l == l') && (l' < size h)%N then d else load l h.
Proof.
rewrite /store /load; case: ltnP => lt; last by rewrite andbF.
by rewrite nth_set_nth /= andbT.
Qed.

(** What the constructor of the superclass builds. *)
Lemma _IVGMMBase__init__P n (d : Data F k1 k2 k3 n) weight_type kw h
    (self : Model (nobs d)) h' :
  _IVGMMBase.__init__ sqrt has_constant new_strategy config d weight_type kw h
  = Ok (self, h') ->
  exists2 cls, registry_get weight_type WEIGHT_MATRICES = Ok cls
  & [/\ new_strategy cls kw = Ok (_weight self),
        _weight_type self = weight_type,
        _weight_config self = (size h).+1
      & h' = rcons (rcons h kw) (config (_weight self))].
Proof.
rewrite /_IVGMMBase.__init__ /=.
case: (_IVModelBase.__init__ _ _ _) => [m|] //=.
case Ec: (registry_get _ _) => [cls|] //=.
rewrite load_last.
case Es: (new_strategy _ _) => [w|] //= [<- <-] /=.
by exists cls => //; split=> //; rewrite size_rcons.
Qed.

(** C10. Constructing an [IVGMMCUE] without a ["center"] entry in
    [weight_config]: the strategy is the one the superclass builds from
    the configuration as given, hence with the strategy's own default
    centering; the assignment [weight_config["center"] = True] runs after
    that and writes into the dictionary of the constructor only, to which
    the model holds no reference, so that the model and every dictionary
    it can reach are what the superclass built. *)
Theorem cue_center_not_applied n (d : Data F k1 k2 k3 n) weight_type
    (kw : dict) (h : heap) (self : Model (nobs d)) (h' : heap) :
  ~~ dict_contains "center"%string kw ->
  IVGMMCUE.__init__ sqrt has_constant new_strategy config d weight_type kw h
  = Ok (self, h') ->
  let wc := size h in
  exists cls h1,
    [/\ registry_get weight_type WEIGHT_MATRICES = Ok cls
        /\ new_strategy cls kw = Ok (_weight self),
        _IVGMMBase.__init__ sqrt has_constant new_strategy config d
          weight_type kw (rcons h kw) = Ok (self, h1),
        h' = store wc (dict_setitem "center"%string (PyBool true) kw) h1,
        _weight_config self != wc
        /\ load (_weight_config self) h' = config (_weight self)
      & forall l, l != wc -> load l h' = load l h1].
Proof.
move=> nc; rewrite /IVGMMCUE.__init__ /= load_last.
case Eb: (_IVGMMBase.__init__ _ _ _ _ _ _ _ _) => [[self0 h1]|] //=.
have [cls Hc [Hs Ht Hl Hh]] := _IVGMMBase__init__P Eb.
have Lk : load (size h) h1 = kw.
  have s1 : (size h < size (rcons (rcons h kw) kw))%N.
    by rewrite !size_rcons ltnS leqnSn.
  have s2 : (size h < size (rcons h kw))%N by rewrite size_rcons.
  by rewrite Hh (load_rcons _ s1) (load_rcons _ s2) load_last.
rewrite Lk nc => -[<- <-]; exists cls, h1; split=> //.
- rewrite Hl size_rcons; split; first by rewrite neq_ltn ltnS leqnSn orbT.
  rewrite load_store eqn_leq [((size h).+2 <= _)%N]ltnNge leqnSn /=.
  by rewrite Hh -(size_rcons h kw) -(size_rcons _ kw) load_last.
- by move=> l ne; rewrite load_store (negbTE ne).
Qed.

End CUEFacts.

Section SimpleGMM.

Import _IVModelBase _IVGMMBase IVGMM.

Variable F : realFieldType.
Variable sqrt : F -> F.
Variable has_constant : forall n k, 'M[F]_(n, k) -> bool.
Variable inv_sqrth : forall n, 'M[F]_n -> 'M[F]_n.
Variable eigvalsh : forall n, 'M[F]_n -> seq F.
Hypothesis sqrt1 : sqrt 1 != 0.
Variables (n : nat) (d : Data F 1 0 0 n).
Hypothesis sd : simple d.
Variable g : _IVGMMBase.Model F unit 1 0 0 (nobs d).
Hypothesis Hg :
  _IVModelBase.__init__ sqrt has_constant (mkArgs d (Scalar 0) None)
  = Ok (base g).

Local Notation loop_body := (@loop_body F unit (@toy_weight_matrix F) 1 0 0).
Local Notation loop := (@loop F unit (@toy_weight_matrix F) 1 0 0).
Local Notation fit :=
  (@fit F sqrt has_constant (@pinv_fcr F) inv_sqrth eigvalsh unit
        (@toy_weight_matrix F) 1 0 0).

Local Notation gram := ((nobs d)%:R * sqrt 1 ^+ 2).

Lemma simple_gmm_wx : _wx (base g) = const_mx (sqrt 1).
Proof. by have [_ [_ ->] _ _ _] := simple_model (kappa := None) sd Hg. Qed.

Lemma simple_gmm_wz : _wz (base g) = const_mx (sqrt 1).
Proof. by have [_ _ -> _ _] := simple_model (kappa := None) sd Hg. Qed.

Lemma simple_gmm_gram : (_wx (base g))^T *m _wz (base g) = gram%:M.
Proof. by rewrite simple_gmm_wx simple_gmm_wz (const_col_gram (nobs d)). Qed.

Lemma simple_gmm_gram_z : (_wz (base g))^T *m _wz (base g) = gram%:M.
Proof. by rewrite simple_gmm_wz (const_col_gram (nobs d)). Qed.

Lemma gram_neq0 : gram != 0.
Proof. exact: simple_gram_neq0. Qed.

Lemma nobs_neq0 : (nobs d)%:R != 0 :> F.
Proof. by rewrite pnatr_eq0 -lt0n (simple_nobs_gt0 sd). Qed.

Lemma nobs_nat_neq0 : (nobs d == 0)%N = false.
Proof. by apply/negbTE; rewrite -lt0n (simple_nobs_gt0 sd). Qed.

Ltac nonzero :=
  by rewrite !(mulf_eq0, invr_eq0, expf_eq0, pnatr_eq0) /=
       ?(negbTE sqrt1) ?nobs_nat_neq0.

(** The GMM estimate exists for every scalar weight that is not zero. *)
Lemma simple_gmm_estimate (c : F) :
  c != 0 ->
  exists p, estimate_parameters (_wx (base g)) (_wy (base g)) (_wz (base g))
              (c%:M) = Ok p.
Proof.
move=> c0; rewrite /estimate_parameters /= simple_gmm_gram tr_scalar_mx.
rewrite -!scalar_mxM inv_scalar1 /=; last by eexists.
by move: c0; rewrite !(mulf_eq0, invr_eq0, expf_eq0, pnatr_eq0) /=
     ?(negbTE sqrt1) ?nobs_nat_neq0 /= => /negbTE ->.
Qed.

(** Every pass of the loop body succeeds on such a model. *)
Lemma simple_loop_body st : exists st', loop_body g st = Ok st'.
Proof.
rewrite /IVGMM.loop_body /= /toy_weight_matrix /estimate_parameters /=.
rewrite simple_gmm_gram simple_gmm_gram_z !arr_div_scalarE !scale_scalar_mx.
have c0 : (nobs d)%:R^-1 * gram != 0 by nonzero.
rewrite (inv_scalar1 c0) /= tr_scalar_mx -!scalar_mxM inv_scalar1 /=;
  first by nonzero.
case: ifP => _; last by eexists.
rewrite tr_scalar_mx -!scalar_mxM arr_div_scalarE scale_scalar_mx.
rewrite inv_scalar1 /=; last by eexists.
by nonzero.
Qed.

Lemma simple_loop iter_limit tol fuel st :
  exists st', loop g iter_limit tol fuel st = Ok st'.
Proof.
elim: fuel st => [|fuel IH] st /=; first by exists st.
case: ifP => _; last by exists st.
by have [st1 -> /=] := simple_loop_body st; apply: IH.
Qed.

(** [IVGMM.fit] succeeds on such a model. *)
Lemma simple_gmm_fit iter_limit tol initial_weight :
  exists res, fit g iter_limit tol initial_weight = Ok res.
Proof.
rewrite /IVGMM.fit /=.
have [wmat -> /=] : exists wmat,
    (if initial_weight is Some w then Ok w
     else inv (arr_div_scalar ((_wz (base g))^T *m _wz (base g)) (nobs d)%:R))
    = Ok wmat.
  case: initial_weight => [w|]; first by exists w.
  rewrite simple_gmm_gram_z arr_div_scalarE scale_scalar_mx inv_scalar1;
    first by nonzero.
  by eexists.
have sd' := simple_data_of (kappa := None) sd Hg.
have [sv Hsv] := simple_init sqrt has_constant sd' 0 (Some 1).
rewrite /IV2SLS.__init__ -/(data_of (base g)) Hsv /=.
have [r -> /=] : exists r,
    _IVLSModelBase.fit sqrt (@pinv_fcr F) inv_sqrth eigvalsh sv "robust"%string
    = Ok r.
  by apply: (simple_fit _ _ sqrt1 sd' _ Hsv); rewrite eqxx.
have [st -> /=] := simple_loop iter_limit tol `|iter_limit|
                     (loop_init tol (params (_IVLSModelBase.post r)) wmat).
have [pe -> /=] :=
  _post_estimation_ok sqrt (ls_params st)
    (simple_weights_sum (kappa := None) sd Hg).
by eexists.
Qed.

End SimpleGMM.

(** ** The theorems at the example data *)

Section Instances.

Import _IVModelBase.

Lemma toy_sqrt1 : toy_sqrt 1 != 0.
Proof. by []. Qed.

Lemma toy_x_gram : toy_x^T *m toy_x \in unitmx.
Proof. by apply: const_col_gram_unit. Qed.

Lemma toy_x_penrose : penrose toy_x (pinv_fcr toy_x).
Proof. exact: penrose_pinv_fcr toy_x_gram. Qed.

(** The closed form at [x = z = [1, 1]], [y = [0, 1]], [kappa = 1/2],
    with a [z] that is not square. *)
Lemma estimate_parameters_closed_form_witness :
  _IVLSModelBase.estimate_parameters (@pinv_fcr rat) toy_x (toy_y01 rat)
    toy_x (1 / 2%:R)
  = (p1i <- inv (spec_P1 toy_x toy_x (pinv_fcr toy_x) (1 / 2%:R)) ;;
     Ok (p1i *m spec_P2 toy_x (toy_y01 rat) toy_x (pinv_fcr toy_x) (1 / 2%:R))).
Proof.
exact: (estimate_parameters_closed_form toy_x (toy_y01 rat) (1 / 2%:R)
          toy_x_penrose toy_x_penrose).
Defined.

Lemma kclass_special_cases_witness :
  _IVLSModelBase.estimate_parameters (@pinv_fcr rat) toy_x (toy_y01 rat) toy_x 1
  = spec_2sls toy_x (toy_y01 rat) toy_x
  /\ _IVLSModelBase.estimate_parameters (@pinv_fcr rat) toy_x (toy_y01 rat)
       toy_x 0
     = spec_ols toy_x (toy_y01 rat).
Proof.
exact: (kclass_special_cases toy_x (toy_y01 rat) toy_x_penrose toy_x_gram).
Defined.

(** A model built with [kappa=1] and [fuller=0]: [fit] uses the kappa
    supplied. *)
Lemma explicit_kappa_in_fit_witness :
  exists self res,
    [/\ __init__ toy_sqrt toy_has_constant
          (toy_args (toy_y01 rat) (Scalar 0) (Some (Scalar 1))) = Ok self,
        _IVLSModelBase.fit toy_sqrt (@pinv_fcr rat) toy_inv_sqrth toy_eigvalsh
          self "robust"%string = Ok res
      & _IVLSModelBase.kappa res = 1].
Proof.
have sd := toy_simple (toy_y01 rat).
have [self Hi] := simple_init toy_sqrt toy_has_constant sd 0 (Some 1).
have [res Hr] :
    exists res, _IVLSModelBase.fit toy_sqrt (@pinv_fcr rat) toy_inv_sqrth
                  toy_eigvalsh self "robust"%string = Ok res.
  exact: (simple_fit toy_inv_sqrth toy_eigvalsh toy_sqrt1 sd _ Hi).
exists self, res; split=> //.
by have [-> _ _] := explicit_kappa_in_fit Hi erefl erefl Hr.
Defined.

(** C3 fails as stated: a model built with [kappa=1] and [fuller=1] on two
    observations and one instrument is fitted with
    [kappa = 1 - 1/(2 - 1) = 0], not with the kappa supplied, whatever
    [inv_sqrth] and [eigvalsh] compute for the LIML kappa. *)
Lemma fuller_shifts_explicit_kappa :
  exists self,
    __init__ toy_sqrt toy_has_constant
      (toy_args (toy_y01 rat) (Scalar 1) (Some (Scalar 1))) = Ok self
    /\ forall inv_sqrth eigvalsh,
       exists res,
         [/\ _IVLSModelBase.fit toy_sqrt (@pinv_fcr rat) inv_sqrth eigvalsh
               self "robust"%string = Ok res,
             _IVLSModelBase.kappa res = 0
           & _IVLSModelBase.kappa res != 1].
Proof.
have sd := toy_simple (toy_y01 rat).
have [self Hi] := simple_init toy_sqrt toy_has_constant sd 1 (Some 1).
exists self; split=> // inv_sqrth eigvalsh.
have [res Hr] :
    exists res, _IVLSModelBase.fit toy_sqrt (@pinv_fcr rat) inv_sqrth
                  eigvalsh self "robust"%string = Ok res.
  exact: (simple_fit inv_sqrth eigvalsh toy_sqrt1 sd _ Hi).
have [_ Hk _ _ _] := fitP Hr; have [_ _ _ _ [Ek Ef]] := simple_model sd Hi.
have K0 : _IVLSModelBase.kappa res = 0.
  by rewrite Hk Ek Ef /= (simple_nobs sd).
by exists res; split=> //; rewrite K0.
Qed.

(** C8 fails as stated: with arrays of the same number of rows that pass
    every listed check, a [kappa] that is no scalar makes the constructor
    raise. *)
Lemma nonscalar_kappa_rejected :
  construct toy_sqrt toy_has_constant (mkIVData (toy_y01 rat) pred0)
    (toy_column 1) (toy_nocolumn rat) (toy_nocolumn rat)
    (None : option (IVData rat 2 1)) (Scalar 0) (Some NonScalar)
  = Raise (ValueError KappaNotScalar)
  /\ ~~ rows_mismatch 2 2 2 2 2 false
  /\ ~~ listed_error (toy_data (toy_y01 rat)).
Proof.
have nl := simple_listed (toy_simple (toy_y01 rat)).
split=> //.
apply: etrans (construct_same toy_sqrt toy_has_constant
                 (toy_args (toy_y01 rat) (Scalar 0) (Some NonScalar))) _.
by rewrite __init__kappa_nonscalar.
Qed.

(** The example GMM model: the model built from the example data with a
    strategy of [toy_weight_matrix]. *)
Lemma toy_gmm_model :
  exists g : _IVGMMBase.Model rat unit 1 0 0 (nobs (toy_data (toy_y01 rat))),
    __init__ toy_sqrt toy_has_constant
      (mkArgs (toy_data (toy_y01 rat)) (Scalar 0) None) = Ok (_IVGMMBase.base g).
Proof.
have sd := toy_simple (toy_y01 rat).
have [self Hi] := simple_init toy_sqrt toy_has_constant sd 0 None.
by exists (_IVGMMBase.mkModel self tt "robust"%string 0).
Qed.

Lemma vinv_computed_once_witness :
  exists (g : _IVGMMBase.Model rat unit 1 0 0 (nobs (toy_data (toy_y01 rat))))
         st1,
    IVGMM.loop_body (@toy_weight_matrix rat) g
      (IVGMM.loop_init (1 / 10000%:R) 0 1%:M) = Ok st1
    /\ forall st, IVGMM.passes (@toy_weight_matrix rat) g 5 (1 / 10000%:R) st1 st ->
       IVGMM.ls_vinv st = IVGMM.ls_vinv st1.
Proof.
have sd := toy_simple (toy_y01 rat).
have [g Hg] := toy_gmm_model.
have [st1 H1] := simple_loop_body toy_sqrt1 sd Hg
                   (IVGMM.loop_init (1 / 10000%:R) 0 1%:M).
exists g, st1; split=> //.
by have [_ H _] := vinv_computed_once 5 H1.
Defined.

(** A perfect fit with a total sum of squares that is not zero. *)
Lemma r2_post_estimation_witness :
  exists pe,
    _post_estimation toy_sqrt toy_slope_model (const_mx 1) = Ok pe
    /\ r2 pe = Some 1.
Proof.
have [pe Hp] : exists pe,
    _post_estimation toy_sqrt toy_slope_model (const_mx 1) = Ok pe.
  by rewrite /_post_estimation /=; eexists.
exists pe; split=> //.
have [_ [e /= -> Ht] _ H1] := r2_post_estimation Hp; apply: H1 => /=.
  apply/matrixP => i j; rewrite !mxE big_ord_recl big_ord0 !mxE.
  by rewrite mulr1 addr0 subrr.
rewrite Ht !big_ord_recl big_ord0 !mxE /=.
by [].
Defined.

(** C9 fails as stated: with a dependent variable that is zero the model
    with [kappa=1] is fitted with the parameter [0], the weighted
    residuals at the fitted parameters are identically zero, the total sum
    of squares is zero, and [R2] is [0/0], not a number. *)
Lemma r2_undefined_on_zero_tss :
  exists self res,
    [/\ __init__ toy_sqrt toy_has_constant
          (toy_args 0 (Scalar 0) (Some (Scalar 1))) = Ok self,
        _IVLSModelBase.fit toy_sqrt (@pinv_fcr rat) toy_inv_sqrth toy_eigvalsh
          self "robust"%string = Ok res,
        (wresids self (params (_IVLSModelBase.post res))).1 = 0
      & r2 (_IVLSModelBase.post res) = None].
Proof.
have sd := toy_simple (0 : 'cV[rat]_2).
have [self Hi] := simple_init toy_sqrt toy_has_constant sd 0 (Some 1).
have [[Hy Hwy] _ _ _ _] := simple_model sd Hi.
have y0 : _y self = 0 by rewrite Hy; apply/matrixP => i j; rewrite !mxE.
have wy0 : _wy self = 0 by rewrite Hwy y0 scaler0.
have [res Hr] :
    exists res, _IVLSModelBase.fit toy_sqrt (@pinv_fcr rat) toy_inv_sqrth
                  toy_eigvalsh self "robust"%string = Ok res.
  exact: (simple_fit toy_inv_sqrth toy_eigvalsh toy_sqrt1 sd _ Hi).
have [_ _ _ He Hp] := fitP Hr.
have p0 : params (_IVLSModelBase.post res) = 0.
  move: He; rewrite estimate_parametersE /spec_kclass /spec_P2 wy0.
  rewrite !mulmx0 !scaler0 addr0.
  by case: (inv _) => [a|] //= [<-]; rewrite mulmx0.
exists self, res; split=> //; first by rewrite /= wy0 p0 mulmx0 subr0.
have [_ [e E Ht] -> _] := _post_estimationP Hp.
suff -> : total_ss (_IVLSModelBase.post res) = 0 by rewrite eqxx.
rewrite Ht big1 // => i _.
case: (_has_constant self) E => [[avg Ha ->]|->]; last by rewrite wy0 mxE expr0n.
move: Ha; rewrite /average; case: ifP => // _ [<-].
rewrite y0 big1 => [l _|]; first by rewrite mxE mul0r.
by rewrite !mxE wy0 mxE mul0r mulr0 subr0 expr0n.
Qed.

Lemma robust_weight_registered :
  registry_get "robust"%string WEIGHT_MATRICES
  = Ok HeteroskedasticWeightMatrix.
Proof. by []. Qed.

Lemma cue_center_not_applied_witness :
  exists self h',
    IVGMMCUE.__init__ toy_sqrt toy_has_constant toy_new_strategy toy_config
      (toy_data (toy_y01 rat)) "robust"%string [::] [::] = Ok (self, h')
    /\ toy_new_strategy HeteroskedasticWeightMatrix [::]
       = Ok (_IVGMMBase._weight self)
    /\ load (_IVGMMBase._weight_config self) h'
       = toy_config (_IVGMMBase._weight self).
Proof.
have sd := toy_simple (toy_y01 rat).
have [m Hi] := simple_init toy_sqrt toy_has_constant sd 0 None.
have Hi' : __init__ toy_sqrt toy_has_constant
             (mkArgs (toy_data (toy_y01 rat)) (Scalar 0) None) = Ok m := Hi.
have [[self h'] Hc] : exists r,
    IVGMMCUE.__init__ toy_sqrt toy_has_constant toy_new_strategy toy_config
      (toy_data (toy_y01 rat)) "robust"%string [::] [::] = Ok r.
  by rewrite /IVGMMCUE.__init__ /_IVGMMBase.__init__ /= Hi' /=; eexists.
exists self, h'; split=> //.
have [cls [h1 [[Hr Hs] _ _ [_ Hl] _]]] :=
  cue_center_not_applied (isT : ~~ dict_contains "center"%string [::]) Hc.
by split=> //; move: Hr Hs; rewrite robust_weight_registered => -[<-].
Defined.

End Instances.

(** ** Data without missing values *)

Section CompleteData.

Import _IVModelBase.

Variable F : realFieldType.
Variable sqrt : F -> F.
Variable has_constant : forall n k, 'M[F]_(n, k) -> bool.
Variables k1 k2 k3 : nat.
Hypothesis sqrt11 : sqrt 1 = 1.
Variables (n : nat) (d : Data F k1 k2 k3 n).
Hypothesis cd : complete d.

Local Notation __init__ := (@__init__ F sqrt has_constant k1 k2 k3).

(** Dropping no row keeps every cross product. *)
Lemma gram_kept p q (A : 'M[F]_(n, p)) (B : 'M[F]_(n, q)) :
  (\matrix_(i < nobs d, j < p) A (enum_val i) j)^T
  *m (\matrix_(i < nobs d, j < q) B (enum_val i) j) = A^T *m B.
Proof.
have [_ m0 _] := cd; apply/matrixP => i j; rewrite !mxE.
rewrite (eq_bigr (fun l : 'I_(nobs d) =>
           A (enum_val l) i * B (enum_val l) j)) => [l _|]; first by rewrite !mxE.
rewrite -(big_enum_val (A := [pred l | ~~ missing d l])
            (fun l => A l i * B l j)).
rewrite (eq_bigl predT) => [l|]; first by rewrite inE m0.
by apply: eq_bigr => l _; rewrite mxE.
Qed.

Lemma kept_xE : kept_x d = \matrix_(i, j) full_x d (enum_val i) j.
Proof.
apply/matrixP => i j; rewrite /kept_x /full_x !mxE.
by case: splitP => k _; rewrite mxE.
Qed.

Lemma kept_zE : kept_z d = \matrix_(i, j) full_z d (enum_val i) j.
Proof.
apply/matrixP => i j; rewrite /kept_z /full_z !mxE.
by case: splitP => k _; rewrite mxE.
Qed.

Lemma complete_notnull i : isnull (supplied_weights d) i = false.
Proof.
have [_ /(_ i) m0 _] := cd; apply: contraFF m0; rewrite /missing /= => ->.
by rewrite !orbT.
Qed.

Lemma complete_nanmean : nanmean (supplied_weights d) = 1.
Proof.
have [n0 _ w1] := cd; rewrite /nanmean w1.
have E : (fun i => ~~ isnull (supplied_weights d) i) =1 predT.
  by move=> i; rewrite complete_notnull.
have C : #|[pred i | ~~ isnull (supplied_weights d) i]| = n.
  by rewrite -[RHS]card_ord; apply: eq_card => i; rewrite !inE E.
have S : \sum_(i < n) (const_mx 1 : 'cV[F]_n) i 0 = n%:R.
  rewrite (eq_bigr (fun=> 1)) => [i _|]; first by rewrite mxE.
  by rewrite sumr_const card_ord.
by rewrite (eq_bigl _ _ E) C S divff // pnatr_eq0 -lt0n.
Qed.

Lemma complete_nobs : nobs d = n.
Proof.
have [_ m0 _] := cd.
rewrite /nobs /nkept -[RHS](card_ord n); apply: eq_card => i.
by rewrite !inE m0.
Qed.

(** Full column rank from an invertible cross product. *)
Lemma rank_gram_unit m k (A : 'M[F]_(m, k)) :
  A^T *m A \in unitmx -> (k <= \rank A)%N.
Proof. by move=> /mxrank_unit {1}<-; apply: mxrankM_maxr. Qed.

Lemma complete_listed :
  (k1 + k2 != 0)%N -> (k2 <= k3)%N ->
  (full_x d)^T *m full_x d \in unitmx ->
  (full_z d)^T *m full_z d \in unitmx ->
  ~~ listed_error d.
Proof.
move=> k0 k32 xu zu; have [n0 m0 w1] := cd.
rewrite /listed_error (negbTE k0) ltnNge k32 /= /matrix_rank.
rewrite ltnNge rank_gram_unit; first by rewrite kept_xE gram_kept.
rewrite ltnNge rank_gram_unit; first by rewrite kept_zE gram_kept.
rewrite /= negb_or; apply/andP; split.
  apply/existsP => -[i /andP [_]]; rewrite w1 mxE => /idPn; apply.
  by rewrite -ltNge ltr01.
rewrite /all_missing negb_and; apply/orP; left.
by apply/existsP => -[i]; rewrite m0.
Qed.

(** The model built from such data. *)
Lemma complete_model (fuller : F) (kappa : option F) self :
  __init__ (mkArgs d (Scalar fuller) (omap (@Scalar F) kappa)) = Ok self ->
  [/\ _wy self = \matrix_(i, j) ndarray (a_dependent d) (enum_val i) j,
      _wx self = \matrix_(i, j) full_x d (enum_val i) j,
      _wz self = \matrix_(i, j) full_z d (enum_val i) j,
      ndarray (weights self) = const_mx 1
    & _kappa self = kappa /\ _fuller self = fuller].
Proof.
move=> H; have /= [[Hd _ _ _ Hw] [Hy Hx Hz] [Hwy Hwx Hwz] [_ Hk Hf] _] :=
  __init__P H.
have [_ _ w1] := cd.
have w1' : ndarray (weights self) = const_mx 1.
  by rewrite Hw; apply/matrixP => i j; rewrite !mxE complete_nanmean divr1 w1 mxE.
have sw : map_mx sqrt (ndarray (weights self)) = const_mx 1.
  by rewrite w1'; apply/matrixP => i j; rewrite !mxE.
have b1 p (A : 'M[F]_(nobs d, p)) : bcast_mul A (const_mx 1) = A.
  by apply/matrixP => i j; rewrite !mxE mulr1.
split=> //.
- by rewrite Hwy sw b1 Hy Hd.
- by rewrite Hwx sw b1 Hx kept_xE.
- by rewrite Hwz sw b1 Hz kept_zE.
- have ck k : check_kappa (omap (@Scalar F) k) = Ok k by case: k.
  by move: Hk Hf; rewrite ck /= => -[<-] [<-].
Qed.

(** The data of the model built are again without missing values, with
    the same cross products. *)
Lemma complete_data_of (fuller : F) (kappa : option F) self :
  __init__ (mkArgs d (Scalar fuller) (omap (@Scalar F) kappa)) = Ok self ->
  [/\ complete (data_of self),
      full_x (data_of self) = \matrix_(i, j) full_x d (enum_val i) j,
      full_z (data_of self) = \matrix_(i, j) full_z d (enum_val i) j
    & ndarray (a_dependent (data_of self))
      = \matrix_(i, j) ndarray (a_dependent d) (enum_val i) j].
Proof.
move=> H; have /= [[Hd Hx He Hi Hw] _ _ _ _] := __init__P H.
have [_ _ _ w1 _] := complete_model H.
have [n0 m0 _] := cd; split.
- split=> //=; first by rewrite complete_nobs.
  move=> i; rewrite /missing /= /supplied_weights /= Hd Hx He Hi Hw /=.
  by have := m0 (enum_val i); rewrite /missing /=.
- by rewrite /full_x /= Hx He -kept_xE.
- by rewrite /full_z /= Hx Hi -kept_zE.
- by rewrite /= Hd.
Qed.

End CompleteData.

(** ** The closed forms in terms of cross products *)

Section GramForms.

Import _IVModelBase.

Variable F : realFieldType.

Lemma estimate_parameters_gram n k m (x : 'M[F]_(n, k)) (y : 'cV[F]_n)
    (z : 'M[F]_(n, m)) kappa :
  _IVLSModelBase.estimate_parameters (@pinv_fcr F) x y z kappa
  = kclass_gram (x^T *m x) (x^T *m z) (z^T *m z) (x^T *m y) (z^T *m y) kappa.
Proof.
rewrite estimate_parametersE /spec_kclass /spec_P1 /spec_P2 /kclass_gram.
by rewrite /pinv_fcr trmx_mul trmxK !mulmxA.
Qed.

Lemma gmm_estimate_gram n k m (x : 'M[F]_(n, k)) (y : 'cV[F]_n)
    (z : 'M[F]_(n, m)) (w : 'M[F]_m) :
  IVGMM.estimate_parameters x y z w = gmm_gram (x^T *m z) (z^T *m y) w.
Proof. by []. Qed.

Variable sqrt : F -> F.
Variable has_constant : forall n k, 'M[F]_(n, k) -> bool.
Variable inv_sqrth : forall n, 'M[F]_n -> 'M[F]_n.
Variable eigvalsh : forall n, 'M[F]_n -> seq F.
Variables k1 k2 k3 : nat.

(** [fit] succeeds when [fuller] is zero and the estimate exists. *)
Lemma fit_exists nobs (self : Model F k1 k2 k3 nobs) (k : F)
    (p : 'cV[F]_(k1 + k2)) :
  _kappa self = Some k -> _fuller self = 0 ->
  _IVLSModelBase.estimate_parameters (@pinv_fcr F) (_wx self) (_wy self)
    (_wz self) k = Ok p ->
  \sum_i ndarray (weights self) i 0 != 0 ->
  exists2 res,
    _IVLSModelBase.fit sqrt (@pinv_fcr F) inv_sqrth eigvalsh self
      "robust"%string = Ok res
    & params (_IVLSModelBase.post res) = p.
Proof.
move=> Hk Hf Hp Hw; rewrite /_IVLSModelBase.fit /= Hk Hf eqxx /= Hp /=.
have [pe Hpe] := _post_estimation_ok sqrt p Hw.
by rewrite Hpe /=; eexists; rewrite //= (_post_estimation_params Hpe).
Qed.

Variable strategy : Type.
Variable weight_matrix :
  strategy -> forall n k m, 'M[F]_(n, k) -> 'M[F]_(n, m) -> 'cV[F]_n -> 'M[F]_m.

(** [IVGMM.fit] with [iter_limit=1] and an initial weight matrix succeeds
    when the [IV2SLS] model can be built and fitted. *)
Lemma gmm_fit_one_exists nobs (g : _IVGMMBase.Model F strategy k1 k2 k3 nobs)
    (tol : F) (w : 'M[F]_(k1 + k3)) sv r :
  IV2SLS.__init__ sqrt has_constant (data_of (_IVGMMBase.base g)) = Ok sv ->
  _IVLSModelBase.fit sqrt (@pinv_fcr F) inv_sqrth eigvalsh sv "robust"%string
  = Ok r ->
  \sum_i ndarray (weights (_IVGMMBase.base g)) i 0 != 0 ->
  exists2 res,
    IVGMM.fit sqrt has_constant (@pinv_fcr F) inv_sqrth eigvalsh
      weight_matrix g 1 tol (Some w) = Ok res
    & params (IVGMM.post res) = params (_IVLSModelBase.post r).
Proof.
move=> Hsv Hr Hw; rewrite /IVGMM.fit /= -/(data_of (_IVGMMBase.base g)) Hsv /= Hr /=.
have [pe Hpe] :=
  _post_estimation_ok sqrt (params (_IVLSModelBase.post r)) Hw.
by rewrite Hpe /=; eexists; rewrite //= (_post_estimation_params Hpe).
Qed.

End GramForms.
(** ** Fitting complete data *)

Section CompleteFit.

Import _IVModelBase.

Variable F : realFieldType.
Variable sqrt : F -> F.
Variable has_constant : forall n k, 'M[F]_(n, k) -> bool.
Variable inv_sqrth : forall n, 'M[F]_n -> 'M[F]_n.
Variable eigvalsh : forall n, 'M[F]_n -> seq F.
Variables k1 k2 k3 : nat.
Variable strategy : Type.
Variable weight_matrix :
  strategy -> forall n k m, 'M[F]_(n, k) -> 'M[F]_(n, m) -> 'cV[F]_n -> 'M[F]_m.
Hypothesis sqrt11 : sqrt 1 = 1.

Local Notation __init__ := (@__init__ F sqrt has_constant k1 k2 k3).

Section Data.

Variables (n : nat) (d : Data F k1 k2 k3 n).
Hypothesis cd : complete d.
Hypothesis k0 : (k1 + k2 != 0)%N.
Hypothesis k32 : (k2 <= k3)%N.
Hypothesis xu : (full_x d)^T *m full_x d \in unitmx.
Hypothesis zu : (full_z d)^T *m full_z d \in unitmx.

Lemma complete_init (fuller : F) (kappa : option F) :
  exists self, __init__ (mkArgs d (Scalar fuller) (omap (@Scalar F) kappa))
               = Ok self.
Proof.
have := @__init__ok F sqrt has_constant k1 k2 k3 n
          (mkArgs d (Scalar fuller) (omap (@Scalar F) kappa))
          (complete_listed cd k0 k32 xu zu).
case: (__init__ _) => [self _|e]; first by exists self.
by case: kappa => [k|] /= /(_ isT isT).
Qed.

(** The cross products of the model are those of the data. *)
Lemma complete_grams (fuller : F) (kappa : option F) self :
  __init__ (mkArgs d (Scalar fuller) (omap (@Scalar F) kappa)) = Ok self ->
  [/\ (_wx self)^T *m _wx self = (full_x d)^T *m full_x d,
      (_wx self)^T *m _wz self = (full_x d)^T *m full_z d,
      (_wz self)^T *m _wz self = (full_z d)^T *m full_z d,
      (_wx self)^T *m _wy self = (full_x d)^T *m ndarray (a_dependent d)
    & (_wz self)^T *m _wy self = (full_z d)^T *m ndarray (a_dependent d)].
Proof.
move=> H; have [-> -> -> _ _] := complete_model sqrt11 cd H.
by split; rewrite (gram_kept cd).
Qed.

Lemma complete_weights_sum (fuller : F) (kappa : option F) self :
  __init__ (mkArgs d (Scalar fuller) (omap (@Scalar F) kappa)) = Ok self ->
  \sum_i ndarray (weights self) i 0 != 0.
Proof.
move=> H; have [_ _ _ -> _] := complete_model sqrt11 cd H.
have [n0 _ _] := cd.
rewrite (eq_bigr (fun=> 1)) => [i _|]; first by rewrite mxE.
by rewrite sumr_const card_ord (complete_nobs cd) pnatr_eq0 -lt0n.
Qed.

End Data.

Variables (n : nat) (d : Data F k1 k2 k3 n).
Hypothesis cd : complete d.
Hypothesis k0 : (k1 + k2 != 0)%N.
Hypothesis k32 : (k2 <= k3)%N.
Hypothesis xu : (full_x d)^T *m full_x d \in unitmx.
Hypothesis zu : (full_z d)^T *m full_z d \in unitmx.

Local Notation xx := ((full_x d)^T *m full_x d).
Local Notation xz := ((full_x d)^T *m full_z d).
Local Notation zz := ((full_z d)^T *m full_z d).
Local Notation xy := ((full_x d)^T *m ndarray (a_dependent d)).
Local Notation zy := ((full_z d)^T *m ndarray (a_dependent d)).

(** [IVGMM.fit] with [iter_limit=1] on complete data: the point estimate
    is the k-class closed form at [kappa = 1] whatever [initial_weight]
    is, while the estimate under [initial_weight] is the GMM closed
    form. *)
Lemma complete_gmm_fit_one
    (g : _IVGMMBase.Model F strategy k1 k2 k3 (nobs d)) (tol : F)
    (w : 'M[F]_(k1 + k3)) (p : 'cV[F]_(k1 + k2)) :
  __init__ (mkArgs d (Scalar 0) None) = Ok (_IVGMMBase.base g) ->
  kclass_gram xx xz zz xy zy 1 = Ok p ->
  (exists2 res,
     IVGMM.fit sqrt has_constant (@pinv_fcr F) inv_sqrth eigvalsh
       weight_matrix g 1 tol (Some w) = Ok res
     & params (IVGMM.post res) = p)
  /\ IVGMM.estimate_parameters (_wx (_IVGMMBase.base g))
       (_wy (_IVGMMBase.base g)) (_wz (_IVGMMBase.base g)) w
     = gmm_gram xz zy w.
Proof.
move=> Hg Hp; set self := _IVGMMBase.base g in Hg *.
have [Gxx Gxz Gzz Gxy Gzy] := complete_grams cd (kappa := None) Hg.
split; last by rewrite gmm_estimate_gram Gxz Gzy.
have [cs Ex Ez Ey] := complete_data_of sqrt11 cd (kappa := None) Hg.
have [My Mx Mz _ _] := complete_model sqrt11 cd (kappa := None) Hg.
have xu' : (full_x (data_of self))^T *m full_x (data_of self) \in unitmx.
  by rewrite Ex -Mx Gxx.
have zu' : (full_z (data_of self))^T *m full_z (data_of self) \in unitmx.
  by rewrite Ez -Mz Gzz.
have [sv Hsv] := complete_init cs k0 k32 xu' zu' 0 (Some 1).
have [Sxx Sxz Szz Sxy Szy] := complete_grams cs (kappa := Some 1) Hsv.
have [_ _ _ _ [Hk Hf]] := complete_model sqrt11 cs (kappa := Some 1) Hsv.
have Hest : _IVLSModelBase.estimate_parameters (@pinv_fcr F) (_wx sv)
              (_wy sv) (_wz sv) 1 = Ok p.
  rewrite estimate_parameters_gram Sxx Sxz Szz Sxy Szy Ex Ez Ey.
  by rewrite -Mx -Mz -My Gxx Gxz Gzz Gxy Gzy.
have [r Hr Pr] := fit_exists sqrt inv_sqrth eigvalsh Hk Hf Hest
                    (complete_weights_sum cs (kappa := Some 1) Hsv).
have [res Hres Pres] := gmm_fit_one_exists weight_matrix tol w Hsv Hr
                          (complete_weights_sum cd (kappa := None) Hg).
by exists res; rewrite // Pres.
Qed.

End CompleteFit.
(** ** The overidentified example *)

Section Overidentified.

Import _IVModelBase.

Lemma inv_mul1 (F : realFieldType) n (A B : 'M[F]_n) :
  A *m B = 1%:M -> A \in unitmx /\ inv A = Ok B.
Proof.
move=> H; have [uA _] := mulmx1_unit H; split=> //.
by rewrite /inv uA -[B]mul1mx -(mulVmx uA) -mulmxA H mulmx1.
Qed.

Lemma over_complete : complete over_data.
Proof. by split=> // i; rewrite /missing /= /supplied_weights. Qed.

Lemma over_full_x : full_x over_data = const_mx 1.
Proof.
apply/matrixP => i j; rewrite /full_x mxE; case: splitP => k _; last by case: k.
by rewrite !mxE.
Qed.

Lemma over_full_z :
  full_z over_data = mx_of 3 (1 + 1) [:: [:: 1; 0]; [:: 1; 1]; [:: 1; 0]].
Proof.
apply/matrixP => i j; rewrite /full_z !mxE.
case: splitP => k ->; rewrite (ord1 k) !mxE /=.
  by case: i => [[|[|[|i]]] hi].
by case: i => [[|[|[|i]]] hi].
Qed.

Local Notation xx := ((full_x over_data)^T *m full_x over_data).
Local Notation xz := ((full_x over_data)^T *m full_z over_data).
Local Notation zz := ((full_z over_data)^T *m full_z over_data).
Local Notation xy := ((full_x over_data)^T *m ndarray (a_dependent over_data)).
Local Notation zy := ((full_z over_data)^T *m ndarray (a_dependent over_data)).

Ltac entries :=
  apply/matrixP; case=> [[|[|[|?]]] ?] //; case=> [[|[|[|?]]] ?] //;
  rewrite !(mxE, big_ord_recl, big_ord0) //=.

Lemma over_xx : xx = mx_of (1 + 0) (1 + 0) [:: [:: 3%:R]].
Proof. by rewrite over_full_x; entries. Qed.

Lemma over_xz : xz = mx_of (1 + 0) (1 + 1) [:: [:: 3%:R; 1]].
Proof. by rewrite over_full_x over_full_z; entries. Qed.

Lemma over_zz : zz = mx_of (1 + 1) (1 + 1) [:: [:: 3%:R; 1]; [:: 1; 1]].
Proof. by rewrite over_full_z; entries. Qed.

Lemma over_xy : xy = mx_of (1 + 0) 1 [:: [:: 4%:R]].
Proof. by rewrite over_full_x; entries. Qed.

Lemma over_zy : zy = mx_of (1 + 1) 1 [:: [:: 4%:R]; [:: 1]].
Proof. by rewrite over_full_z; entries. Qed.

Lemma over_xx_unit : xx \in unitmx.
Proof.
rewrite over_xx.
have [] // := @inv_mul1 rat _ (mx_of (1 + 0) (1 + 0) [:: [:: 3%:R]])
                (mx_of (1 + 0) (1 + 0) [:: [:: 1 / 3%:R]]).
by entries.
Qed.

Lemma over_zz_inv :
  zz \in unitmx
  /\ invmx zz = mx_of (1 + 1) (1 + 1)
                  [:: [:: 1 / 2%:R; - (1 / 2%:R)];
                      [:: - (1 / 2%:R); 3%:R / 2%:R]].
Proof.
rewrite over_zz.
have [|u] := @inv_mul1 rat _
    (mx_of (1 + 1) (1 + 1) [:: [:: 3%:R; 1]; [:: 1; 1]])
    (mx_of (1 + 1) (1 + 1)
       [:: [:: 1 / 2%:R; - (1 / 2%:R)]; [:: - (1 / 2%:R); 3%:R / 2%:R]]).
  by entries.
by rewrite /inv u => -[].
Qed.

(** The k-class estimate at [kappa = 1] is [4/3]. *)
Lemma over_kclass :
  kclass_gram xx xz zz xy zy 1 = Ok (const_mx (4%:R / 3%:R)).
Proof.
have [_ zi] := over_zz_inv.
rewrite /kclass_gram zi over_xx over_xz over_xy over_zy subrr !scale0r !add0r.
rewrite !scale1r.
have [|_ ->] /= := @inv_mul1 rat _
    (mx_of (1 + 0) (1 + 1) [:: [:: 3%:R; 1]]
     *m mx_of (1 + 1) (1 + 1)
          [:: [:: 1 / 2%:R; - (1 / 2%:R)]; [:: - (1 / 2%:R); 3%:R / 2%:R]]
     *m (mx_of (1 + 0) (1 + 1) [:: [:: 3%:R; 1]])^T)
    (mx_of (1 + 0) (1 + 0) [:: [:: 1 / 3%:R]]).
  by entries.
by congr (Ok _); entries.
Qed.

(** The GMM estimate under the weight matrix [diag(1, 3)] is [5/4]. *)
Lemma over_gmm :
  gmm_gram xz zy over_weight = Ok (const_mx (5%:R / 4%:R)).
Proof.
rewrite /gmm_gram over_xz over_zy.
have [|_ ->] /= := @inv_mul1 rat _
    (mx_of (1 + 0) (1 + 1) [:: [:: 3%:R; 1]] *m over_weight
     *m (mx_of (1 + 0) (1 + 1) [:: [:: 3%:R; 1]])^T)
    (mx_of (1 + 0) (1 + 0) [:: [:: 1 / 12%:R]]).
  by entries.
by congr (Ok _); entries.
Qed.

End Overidentified.
(** ** [IVGMM.fit] with [iter_limit = 1] on the overidentified example *)

Section OneStepExample.

Import _IVModelBase.

(** C4, the code on the overidentified example.  The data are the three observations
    [y = [0, 1, 3]] with a constant regressor and the instrument
    [[0, 1, 0]]; [fit] is called with [iter_limit=1] and
    [initial_weight = diag(1, 3)].  The call succeeds and reports one
    iteration, and its point estimate is [4/3], the [IV2SLS] estimate;
    the one-step estimate under the initial weight matrix, which
    [estimate_parameters] computes from the same arrays, is [5/4]. *)
Theorem fit_iter_limit_one_initial_weight :
  exists (g : _IVGMMBase.Model rat unit 1 0 1 (nobs over_data)) res,
    [/\ __init__ toy_sqrt toy_has_constant
          (mkArgs over_data (Scalar 0) None) = Ok (_IVGMMBase.base g),
        IVGMM.fit toy_sqrt toy_has_constant (@pinv_fcr rat) toy_inv_sqrth
          toy_eigvalsh (@toy_weight_matrix rat) g 1 (1 / 10000%:R)
          (Some over_weight) = Ok res,
        _IVGMMBase.iterations (IVGMM.gmm_post res) = 1%N,
        params (IVGMM.post res) = const_mx (4%:R / 3%:R)
      & IVGMM.estimate_parameters (_wx (_IVGMMBase.base g))
          (_wy (_IVGMMBase.base g)) (_wz (_IVGMMBase.base g)) over_weight
        = Ok (const_mx (5%:R / 4%:R))
        /\ (4%:R / 3%:R : rat) != 5%:R / 4%:R].
Proof.
have s1 : toy_sqrt 1 = 1 by [].
have [zu _] := over_zz_inv.
have [self Hi] := complete_init toy_sqrt toy_has_constant over_complete
                    isT isT over_xx_unit zu 0 None.
pose g := _IVGMMBase.mkModel self tt "robust"%string 0.
have [[res Hres Pres] Hgmm] :=
  complete_gmm_fit_one toy_inv_sqrth toy_eigvalsh (@toy_weight_matrix rat)
    s1 over_complete isT isT over_xx_unit zu (g := g) (1 / 10000%:R)
    over_weight Hi over_kclass.
exists g, res; split=> //.
- by have [sv [r [_ _ _ -> _]]] := fit_one_passP Hres.
- by rewrite Hgmm over_gmm.
Qed.

End OneStepExample.

(** ** Positive weights *)

Section PositiveWeights.

Import _IVModelBase.

Variable F : realFieldType.
Variables (n : nat) (d : Data F 1 0 0 n).
Hypothesis n0 : (0 < n)%N.
Hypothesis m0 : forall i, missing d i = false.
Hypothesis x1 : ndarray (a_exog d) = const_mx 1.
Hypothesis pos : forall i, 0 < ndarray (supplied_weights d) i 0.

(** Data with a constant regressor, positive weights and no missing value
    pass every check of the constructor. *)
Lemma positive_listed : ~~ listed_error d.
Proof.
have nn : nobs d = n.
  rewrite /nobs /nkept -[RHS](card_ord n); apply: eq_card => i.
  by rewrite !inE m0.
have kx : kept_x d = const_mx 1.
  apply/matrixP => i j; rewrite /kept_x mxE.
  by case: splitP => k _; last (by case: k); rewrite !mxE x1 mxE.
have kz : kept_z d = const_mx 1.
  apply/matrixP => i j; rewrite /kept_z mxE.
  by case: splitP => k _; last (by case: k); rewrite !mxE x1 mxE.
rewrite /listed_error /= kx kz /matrix_rank.
rewrite !rank_const_col ?oner_neq0 ?nn //= negb_or; apply/andP; split.
  by apply/existsP => -[i /andP [_]]; rewrite leNgt pos.
rewrite /all_missing negb_and; apply/orP; left.
by apply/existsP => -[i]; rewrite m0.
Qed.

End PositiveWeights.

(** ** The theorems at the weighted and the exactly identified example *)

Section MoreInstances.

Import _IVModelBase.

Lemma rat_sqrt25 :
  rat_sqrt (1 / 25%:R) = 1 / 5%:R /\ rat_sqrt (49%:R / 25%:R) = 7%:R / 5%:R.
Proof. by split; vm_compute. Qed.

Lemma weighted_nanmean :
  nanmean (supplied_weights weighted_data) = 25%:R.
Proof.
rewrite /nanmean /=.
have -> : #|[pred i : 'I_2 | ~~ pred0 i]| = 2%N.
  by rewrite -[RHS]card_ord; apply: eq_card.
by rewrite !big_ord_recl big_ord0 !mxE.
Qed.

Lemma weighted_init :
  exists self,
    __init__ rat_sqrt toy_has_constant
      (mkArgs weighted_data (Scalar 0) None) = Ok self.
Proof.
have nl : ~~ listed_error weighted_data.
  apply: positive_listed => // i; rewrite /= mxE.
  by case: i => [[|[|?]] ?].
have := @__init__ok rat rat_sqrt toy_has_constant 1 0 0 2
          (mkArgs weighted_data (Scalar 0) None) nl isT isT.
by case: (__init__ _) => [self _|//]; exists self.
Qed.

(** C7 at the weighted example and the parameter [1]: the residuals are
    [[5, 10]] and the weighted residuals [[5 * 1/5, 10 * 7/5]]. *)
Lemma resids_wresids_witness :
  exists self,
    [/\ __init__ rat_sqrt toy_has_constant
          (mkArgs weighted_data (Scalar 0) None) = Ok self,
        forall i, (resids self (const_mx 1)).1 i 0
                  = nth 0 [:: 5%:R; 10%:R] (enum_val i)
      & forall i, (wresids self (const_mx 1)).1 i 0
                  = nth 0 [:: 1; 14%:R] (enum_val i)].
Proof.
have [self Hi] := weighted_init; exists self.
have [R _ _ W] := resids_wresids (const_mx 1) Hi.
have [s1 s49] := rat_sqrt25.
have Ri i : (resids self (const_mx 1)).1 i 0
            = nth 0 [:: 5%:R; 10%:R] (enum_val i).
  rewrite R big_ord_recl big_ord0 !mxE; move: (enum_val i) => r.
  case: splitP => [k _|[? ?]]; last by [].
  rewrite !mxE mulr1 addr0 /=.
  by case: r => [[|[|?]] ?].
split; [exact: Hi | exact: Ri | move=> i].
rewrite W Ri weighted_nanmean; move: (enum_val i) => r.
case: r => [[|[|?]] ?]; last by [].
  by rewrite /= mxE /= s1.
by rewrite /= mxE /= s49.
Defined.
(** C8 at a dependent variable with two rows: an exogenous regressor with
    three rows is refused, one with two rows is accepted. *)
Lemma construction_fails_iff_witness :
  (exists e,
     construct toy_sqrt toy_has_constant (mkIVData (toy_y01 rat) pred0)
       three_rows (toy_nocolumn rat) (toy_nocolumn rat)
       (None : option (IVData rat 2 1)) (Scalar 0) None
     = Raise (ValueError e))
  /\ is_ok (construct toy_sqrt toy_has_constant (mkIVData (toy_y01 rat) pred0)
              (toy_column 1) (toy_nocolumn rat) (toy_nocolumn rat)
              (None : option (IVData rat 2 1)) (Scalar 0) None).
Proof.
have [H1 H2 _] :=
  construction_fails_iff toy_sqrt toy_has_constant
    (mkIVData (toy_y01 rat) pred0) three_rows (toy_nocolumn rat)
    (toy_nocolumn rat) (None : option (IVData rat 2 1)) (Scalar 0) None.
split; first exact: H1.
have := H2 _ (toy_args (toy_y01 rat) (Scalar 0) None).
have nl : ~~ listed_error (a_data (toy_args (toy_y01 rat) (Scalar 0) None)).
  exact: simple_listed (toy_simple (toy_y01 rat)).
by cbv zeta; rewrite (negbTE nl) => ->.
Defined.
Ltac entries :=
  apply/matrixP; case=> [[|[|[|?]]] ?] //; case=> [[|[|[|?]]] ?] //;
  rewrite !(mxE, big_ord_recl, big_ord0) //=.

Lemma toy_sqrt11 : toy_sqrt 1 = 1.
Proof. by []. Qed.

(** [diag(1, 3)] is positive definite. *)
Lemma over_weight_posdef : posdef over_weight.
Proof.
move=> v v0.
have -> : (v *m over_weight *m v^T) 0 0
          = v 0 0 ^+ 2 + 3%:R * v 0 (lift 0 0) ^+ 2.
  rewrite !(mxE, big_ord_recl, big_ord0) /=.
  rewrite !mulr0 !mulr1 !addr0 add0r !expr2; congr (_ + _).
  by rewrite mulrAC mulrC.
have [z0|nz0] := eqVneq (v 0 0) 0.
  have nz1 : v 0 (lift 0 0) != 0.
    apply: contraNN v0 => /eqP z1; apply/eqP/matrixP => i j.
    rewrite (ord1 i) mxE.
    by case: j => [[|[|?]] ?] //; [rewrite -[RHS]z0 | rewrite -[RHS]z1];
       congr (v 0 _); apply: val_inj.
  rewrite z0 expr0n add0r mulr_gt0 // ?ltr0n //.
  by rewrite lt0r sqrf_eq0 nz1 sqr_ge0.
rewrite ltr_pwDl //; first by rewrite lt0r sqrf_eq0 nz0 sqr_ge0.
by rewrite mulr_ge0 ?ler0n ?sqr_ge0.
Qed.

Lemma over_gmm_model :
  exists g : _IVGMMBase.Model rat unit 1 0 1 (nobs over_data),
    __init__ toy_sqrt toy_has_constant (mkArgs over_data (Scalar 0) None)
    = Ok (_IVGMMBase.base g).
Proof.
have [zu _] := over_zz_inv.
have [self Hi] := complete_init toy_sqrt toy_has_constant over_complete
                    isT isT over_xx_unit zu 0 None.
by exists (_IVGMMBase.mkModel self tt "robust"%string 0).
Qed.

(** The moment conditions of a model in terms of the cross products. *)
Lemma moments_gram (F : realFieldType) n k m (x : 'M[F]_(n, k))
    (y : 'cV[F]_n) (z : 'M[F]_(n, m)) (p : 'cV[F]_k) :
  z^T *m (y - x *m p) = z^T *m y - (x^T *m z)^T *m p.
Proof. by rewrite mulmxBr mulmxA trmx_mul trmxK. Qed.

Lemma over_quadratic_form
    (g : _IVGMMBase.Model rat unit 1 0 1 (nobs over_data)) :
  __init__ toy_sqrt toy_has_constant (mkArgs over_data (Scalar 0) None)
  = Ok (_IVGMMBase.base g) ->
  let z := _wz (_IVGMMBase.base g) in
  let eps := _wy (_IVGMMBase.base g)
             - _wx (_IVGMMBase.base g) *m const_mx (4%:R / 3%:R) in
  let g_bar := (nobs over_data)%:R^-1 *: (z^T *m eps)^T in
  (nobs over_data)%:R * (g_bar *m over_weight *m g_bar^T) 0 0
  = 1 / 9%:R :> rat.
Proof.
move=> Hg z eps g_bar; rewrite /g_bar /eps /z.
have [_ Gxz _ _ Gzy] :=
  complete_grams toy_sqrt11 over_complete (kappa := None) Hg.
rewrite moments_gram Gxz Gzy over_xz over_zy.
have -> : (nobs over_data)%:R = 3%:R :> rat.
  by rewrite (complete_nobs over_complete).
by rewrite {Hg Gxz Gzy} !(mxE, big_ord_recl, big_ord0) /=.
Qed.

Lemma just_complete : complete just_data.
Proof. by split=> // i; rewrite /missing /= /supplied_weights. Qed.

Lemma just_full_x :
  full_x just_data = mx_of 3 (0 + 1) [:: [:: 1]; [:: 2%:R]; [:: 0]].
Proof.
apply/matrixP => i j; rewrite /full_x !mxE.
case: splitP => k; first by case: k.
by move=> ->; rewrite (ord1 k) !mxE /=; case: i => [[|[|[|i]]] hi].
Qed.

Lemma just_full_z :
  full_z just_data = mx_of 3 (0 + 1) [:: [:: 0]; [:: 1]; [:: 0]].
Proof.
apply/matrixP => i j; rewrite /full_z !mxE.
case: splitP => k; first by case: k.
by move=> ->; rewrite (ord1 k) !mxE /=; case: i => [[|[|[|i]]] hi].
Qed.

Local Notation jxx := ((full_x just_data)^T *m full_x just_data).
Local Notation jxz := ((full_x just_data)^T *m full_z just_data).
Local Notation jzz := ((full_z just_data)^T *m full_z just_data).
Local Notation jxy :=
  ((full_x just_data)^T *m ndarray (a_dependent just_data)).
Local Notation jzy :=
  ((full_z just_data)^T *m ndarray (a_dependent just_data)).

Lemma just_xx : jxx = mx_of (0 + 1) (0 + 1) [:: [:: 5%:R]].
Proof. by rewrite just_full_x; entries. Qed.

Lemma just_xz : jxz = mx_of (0 + 1) (0 + 1) [:: [:: 2%:R]].
Proof. by rewrite just_full_x just_full_z; entries. Qed.

Lemma just_zz : jzz = mx_of (0 + 1) (0 + 1) [:: [:: 1]].
Proof. by rewrite just_full_z; entries. Qed.

Lemma just_xy : jxy = mx_of (0 + 1) 1 [:: [:: 2%:R]].
Proof. by rewrite just_full_x; entries. Qed.

Lemma just_zy : jzy = mx_of (0 + 1) 1 [:: [:: 1]].
Proof. by rewrite just_full_z; entries. Qed.

Lemma just_xx_unit : jxx \in unitmx.
Proof.
rewrite just_xx.
have [] // := @inv_mul1 rat _ (mx_of (0 + 1) (0 + 1) [:: [:: 5%:R]])
                (mx_of (0 + 1) (0 + 1) [:: [:: 1 / 5%:R]]).
by entries.
Qed.

Lemma just_zz_unit : jzz \in unitmx.
Proof.
rewrite just_zz.
have [] // := @inv_mul1 rat _ (mx_of (0 + 1) (0 + 1) [:: [:: 1]])
                (mx_of (0 + 1) (0 + 1) [:: [:: 1]]).
by entries.
Qed.

(** The GMM estimate of the exactly identified example is [1/2]. *)
Lemma just_gmm : gmm_gram jxz jzy 1%:M = Ok (const_mx (1 / 2%:R)).
Proof.
rewrite /gmm_gram just_xz just_zy.
have [|_ ->] /= := @inv_mul1 rat _
    (mx_of (0 + 1) (0 + 1) [:: [:: 2%:R]] *m 1%:M
     *m (mx_of (0 + 1) (0 + 1) [:: [:: 2%:R]])^T)
    (mx_of (0 + 1) (0 + 1) [:: [:: 1 / 4%:R]]).
  by entries.
by congr (Ok _); entries.
Qed.

Lemma just_gmm_model :
  exists g : _IVGMMBase.Model rat unit 0 1 1 (nobs just_data),
    __init__ toy_sqrt toy_has_constant (mkArgs just_data (Scalar 0) None)
    = Ok (_IVGMMBase.base g).
Proof.
have [self Hi] := complete_init toy_sqrt toy_has_constant just_complete
                    isT isT just_xx_unit just_zz_unit 0 None.
by exists (_IVGMMBase.mkModel self tt "robust"%string 0).
Qed.

End MoreInstances.
